(** * SMART label-history table: a shallow embedding and its properties

    The development follows
    [frontend/src/components/HistoryTable/index.jsx], the React component
    that lists past labels and lets a coder change or skip them.

    - [Js] holds the few JavaScript values and built-ins the component uses.
    - [HistoryTable] is the component itself: its column table, the custom
      filter of the Data column, the page-size loop of [render], the click
      handlers of the label and Skip buttons.
    - [ReactTable] is the part of the table widget's contract the component
      relies on (filtering, sorting, the page-size menu).
    - [Revision] is the revision subsystem (store, projection, command
      handler) as the specification describes it; the repository's backend
      is not among the sources.  *)

From Equations Require Import Equations.
From stdpp Require Import base decidable option list strings gmap.
From Stdlib Require Import ZArith Lia DecimalString Permutation Sorted.

Local Open Scope string_scope.
Local Open Scope list_scope.
Local Open Scope nat_scope.

(* ===================================================================== *)
(** * JavaScript values and built-ins                                     *)
(* ===================================================================== *)

Module Js.

(** The scalar values that travel in the JSON payload of the history
    request.  Numbers are the integer-valued ones (primary keys); they stay
    in the range where a double is exact and prints in decimal. *)
Inductive jsval : Type :=
| JUndefined
| JNull
| JBool (b : bool)
| JNum (n : Z)
| JStr (s : string).

#[global] Instance jsval_eq_dec : EqDecision jsval.
Proof. solve_decision. Defined.

(** [a === b]: no coercion, operands of different types are unequal. *)
Definition strict_eq (a b : jsval) : bool :=
  match a, b with
  | JUndefined, JUndefined => true
  | JNull, JNull => true
  | JBool x, JBool y => Bool.eqb x y
  | JNum x, JNum y => Z.eqb x y
  | JStr x, JStr y => String.eqb x y
  | _, _ => false
  end.

(** [String(v)]. *)
Definition String_ (v : jsval) : string :=
  match v with
  | JUndefined => "undefined"
  | JNull => "null"
  | JBool true => "true"
  | JBool false => "false"
  | JNum n => NilZero.string_of_int (Z.to_int n)
  | JStr s => s
  end.

(** [v.toString()]: a method call, which throws a TypeError on [undefined]
    and [null] (rendered as [None]) and otherwise prints like [String]. *)
Definition toString (v : jsval) : option string :=
  match v with
  | JUndefined | JNull => None
  | _ => Some (String_ v)
  end.

(** [s.includes(search)]: does [search] occur in [s] at some position,
    scanning from position 0. *)
Fixpoint includes (s search : string) : bool :=
  String.prefix search s
  || match s with
     | EmptyString => false
     | String _ rest => includes rest search
     end.

(** [s.toLowerCase()] follows the Unicode case mapping of the host; the
    component is modelled over any such function.  This is its restriction
    to ASCII letters, used to run examples. *)
Definition ascii_lower (c : Ascii.ascii) : Ascii.ascii :=
  let n := Ascii.nat_of_ascii c in
  if (65 <=? n)%nat && (n <=? 90)%nat then Ascii.ascii_of_nat (n + 32) else c.

Fixpoint ascii_toLowerCase (s : string) : string :=
  match s with
  | EmptyString => EmptyString
  | String c rest => String (ascii_lower c) (ascii_toLowerCase rest)
  end.

End Js.

(* ===================================================================== *)
(** * A stable sort by a three-way comparison                             *)
(* ===================================================================== *)

Module StableSort.

(** Insert [x] before the first element it does not come after. *)
Fixpoint insert_by {A : Type} (cmp : A -> A -> comparison) (x : A)
    (l : list A) : list A :=
  match l with
  | [] => [x]
  | y :: l' =>
      match cmp x y with
      | Gt => y :: insert_by cmp x l'
      | _ => x :: y :: l'
      end
  end.

Definition sort_by {A : Type} (cmp : A -> A -> comparison) (l : list A) : list A :=
  foldr (insert_by cmp) [] l.

(** [x] does not come after [y]. *)
Definition not_after {A : Type} (cmp : A -> A -> comparison) (x y : A) : Prop :=
  cmp x y <> Gt.

End StableSort.

(* ===================================================================== *)
(** * The HistoryTable component                                          *)
(* ===================================================================== *)

Module HistoryTable.
Import Js.

(** One entry of the history payload, as the table resolves it: a value
    per column accessor. *)
Record row : Type := mk_row {
  row_id : jsval;
  row_data : jsval;
  row_old_label : jsval;
  row_old_label_id : jsval;
  row_timestamp : jsval
}.

(** [row[key]] *)
Definition row_get (r : row) (key : string) : jsval :=
  if String.eqb key "id" then row_id r
  else if String.eqb key "data" then row_data r
  else if String.eqb key "old_label" then row_old_label r
  else if String.eqb key "old_label_id" then row_old_label_id r
  else if String.eqb key "timestamp" then row_timestamp r
  else JUndefined.

(** The filter object handed to a column's [filterMethod]. *)
Record filter_t : Type := mk_filter {
  filter_id : string;
  filter_value : string
}.

Record column : Type := mk_column {
  Header : string;
  accessor : string;
  col_id : option string;
  show : option bool;
  width : option nat;
  filterMethod : option (filter_t -> row -> bool)
}.

Record sort_rule : Type := mk_sort {
  sort_id : string;
  desc : bool
}.

Section Component.
(** The host's [String.prototype.toLowerCase]. *)
Variable toLowerCase : string -> string.

(** [columns[1].filterMethod] *)
Definition data_filterMethod (filter : filter_t) (r : row) : bool :=
  if includes (toLowerCase (String_ (row_get r "data")))
              (toLowerCase (filter_value filter))
  then true
  else false.

Definition columns : list column :=
  [ mk_column "id" "id" None (Some false) None None;
    mk_column "Data" "data" None None None (Some data_filterMethod);
    mk_column "Old Label" "old_label" None None (Some 100%nat) None;
    mk_column "Old Label ID" "old_label_id" None (Some false) None None;
    mk_column "Date/Time" "timestamp" (Some "timestamp") None (Some 150%nat) None ].
End Component.

(** The loop of [render] that fills [page_sizes]:
    [for (var i = 5; i < table_data.length; i += 5*counter)
       { page_sizes.push(i); counter += 1; }].
    The body increments [counter] before the update expression runs. *)
Equations? page_sizes_loop (len i counter : nat) (page_sizes : list nat)
  : list nat by wf (len - i) lt :=
  page_sizes_loop len i counter page_sizes with decide (i < len) => {
    | left _ :=
        page_sizes_loop len (i + 5 * (counter + 1)) (counter + 1)
                        (page_sizes ++ [i]);
    | right _ := page_sizes }.
Proof. lia. Qed.

(** [page_sizes] as [render] leaves it: seeded with [[1]], filled by the
    loop, closed with [table_data.length]. *)
Definition page_sizes (len : nat) : list nat :=
  page_sizes_loop len 5 1 [1%nat] ++ [len].

(** [(table_data.length < 50) ? table_data.length : 50] *)
Definition pageSize (len : nat) : nat :=
  if (len <? 50)%nat then len else 50%nat.

(** [history_data && history_data.length > 0 ? history_data[0] : []];
    [None] stands for a missing ([undefined] or [null]) prop. *)
Definition table_data (history_data : option (list (list row))) : list row :=
  match history_data with
  | Some (first :: _) => first
  | _ => []
  end.

Record label_t : Type := mk_label {
  pk : jsval;
  name : string
}.

(** The component's props.  The callbacks act on the application state
    [World] (they dispatch store actions); [labels], like [history_data], is
    not a required prop and [None] stands for its absence. *)
Record props (World : Type) : Type := mk_props {
  getHistory : World -> World;
  history_data : option (list (list row));
  labels : option (list label_t);
  changeLabel : jsval -> jsval -> jsval -> World -> World;
  changeToSkip : jsval -> jsval -> World -> World
}.
Arguments mk_props {World}.
Arguments getHistory {World}.
Arguments history_data {World}.
Arguments labels {World}.
Arguments changeLabel {World}.
Arguments changeToSkip {World}.

(** A rendered button: its React key (the Skip button has none), its
    caption and what a click does. *)
Record button (World : Type) : Type := mk_button {
  key : option string;
  caption : string;
  bsStyle : string;
  onClick : World -> World
}.
Arguments mk_button {World}.
Arguments key {World}.
Arguments caption {World}.
Arguments bsStyle {World}.
Arguments onClick {World}.

(** What [SubComponent] returns for a row: the text of its paragraph and
    the buttons of its toolbar. *)
Record sub_row (World : Type) : Type := mk_sub_row {
  sub_text : jsval;
  sub_toolbar : list (button World)
}.
Arguments mk_sub_row {World}.
Arguments sub_text {World}.
Arguments sub_toolbar {World}.

Section Handlers.
Context {World : Type}.
Variable p : props World.

(** [onClick] of a label button:
    [if (!(row.row.old_label_id === label.pk))
       changeLabel(row.row.id, row.row.old_label_id, label.pk)] *)
Definition label_onClick (r : row) (label : label_t) (w : World) : World :=
  if negb (strict_eq (row_old_label_id r) (pk label))
  then changeLabel p (row_id r) (row_old_label_id r) (pk label) w
  else w.

(** [onClick] of the Skip button:
    [() => changeToSkip(row.row.id, row.row.old_label_id)] *)
Definition skip_onClick (r : row) (w : World) : World :=
  changeToSkip p (row_id r) (row_old_label_id r) w.

(** The key of a label button,
    [label.pk.toString() + "_his_" + row.row.id.toString()]; either method
    call throws when its receiver is [undefined] or [null]. *)
Definition button_key (r : row) (label : label_t) : option string :=
  match toString (pk label) with
  | None => None
  | Some pk_s =>
      match toString (row_id r) with
      | None => None
      | Some id_s => Some (pk_s +:+ "_his_" +:+ id_s)
      end
  end.

(** The callback of [labels.map]: the button of one label. *)
Definition label_button (r : row) (label : label_t) : option (button World) :=
  match button_key r label with
  | None => None
  | Some k => Some (mk_button (Some k) (name label) "primary" (label_onClick r label))
  end.

(** [SubComponent]: the row's data in a paragraph and the button toolbar,
    one button per label, then Skip.  Building it throws a TypeError
    ([None]) when [labels] is missing or a key cannot be computed; the
    buttons are built in the order of the labels and the first throw ends
    the call. *)
Definition SubComponent (r : row) : option (sub_row World) :=
  match labels p with
  | None => None
  | Some ls =>
      match mapM (label_button r) ls with
      | None => None
      | Some buttons =>
          Some (mk_sub_row (row_data r)
                  (buttons ++ [mk_button None "Skip" "info" (skip_onClick r)]))
      end
  end.
End Handlers.

(** The props [render] passes to [<ReactTable>]. *)
Record table_props (World : Type) : Type := mk_table_props {
  tp_data : list row;
  tp_columns : list column;
  tp_pageSizeOptions : list nat;
  tp_pageSize : nat;
  tp_SubComponent : row -> option (sub_row World);
  tp_filterable : bool;
  tp_defaultSorted : list sort_rule
}.
Arguments mk_table_props {World}.
Arguments tp_data {World}.
Arguments tp_columns {World}.
Arguments tp_pageSizeOptions {World}.
Arguments tp_pageSize {World}.
Arguments tp_SubComponent {World}.
Arguments tp_filterable {World}.
Arguments tp_defaultSorted {World}.

(** [defaultSorted={[{id: "timestamp", desc: true}]}] *)
Definition defaultSorted : list sort_rule := [mk_sort "timestamp" true].

(** [render] *)
Definition render {World : Type} (toLowerCase : string -> string)
    (p : props World) : table_props World :=
  let data := table_data (history_data p) in
  mk_table_props
    data
    (columns toLowerCase)
    (page_sizes (length data))
    (pageSize (length data))
    (SubComponent p)
    true
    defaultSorted.

(** [componentWillMount] *)
Definition componentWillMount {World : Type} (p : props World) (w : World) : World :=
  getHistory p w.

End HistoryTable.

(* ===================================================================== *)
(** * The table widget: what the component relies on                      *)
(* ===================================================================== *)

(** [<ReactTable>] is a third-party widget.  The component hands it the
    data and a configuration; the widget filters and orders the rows on the
    client.  This module records that contract: filters are applied one
    after the other through the column's [filterMethod] (the widget's
    default when a column has none), rows are ordered by the sort rules in
    force ([defaultSorted] until the user picks a sort), and the page-size
    menu shows [pageSizeOptions] as given.  The order of rows that compare
    equal is not relied upon; the model keeps the input order. *)

Module ReactTable.
Import Js HistoryTable StableSort.

(** What the user has done to the table: the filter boxes that hold a
    value, and the sort picked by clicking a header, if any. *)
Record table_state : Type := mk_state {
  filtered : list filter_t;
  sorted : option (list sort_rule)
}.

Definition initial_state : table_state := mk_state [] None.

Section Widget.
(** The widget's defaults for columns without their own methods. *)
Variable defaultFilterMethod : filter_t -> row -> bool.
Variable defaultSortMethod : jsval -> jsval -> comparison.

Definition column_id (c : column) : string :=
  default (accessor c) (col_id c).

Definition visible (c : column) : bool :=
  match show c with Some false => false | _ => true end.

Definition find_column (cols : list column) (id : string) : option column :=
  find (fun c => String.eqb (column_id c) id) (List.filter visible cols).

(** One filter: rows failing the column's method are dropped; a filter
    naming no visible column is ignored. *)
Definition apply_filter (cols : list column) (rows : list row)
    (f : filter_t) : list row :=
  match find_column cols (filter_id f) with
  | None => rows
  | Some c =>
      List.filter (default defaultFilterMethod (filterMethod c) f) rows
  end.

Definition filterData (cols : list column) (fs : list filter_t)
    (rows : list row) : list row :=
  foldl (apply_filter cols) rows fs.

(** The comparison of two rows under a list of sort rules: the first
    rule that tells them apart decides, reversed when [desc]. *)
Fixpoint compare_rows (rules : list sort_rule) (a b : row) : comparison :=
  match rules with
  | [] => Eq
  | rule :: rest =>
      match defaultSortMethod (row_get a (sort_id rule))
                              (row_get b (sort_id rule)) with
      | Eq => compare_rows rest a b
      | c => if desc rule then CompOpp c else c
      end
  end.

Definition sortData (rules : list sort_rule) (rows : list row) : list row :=
  match rules with
  | [] => rows
  | _ => sort_by (compare_rows rules) rows
  end.

(** What the table shows for given props and user state. *)
Record view : Type := mk_view {
  view_rows : list row;
  view_pageSizeOptions : list nat;
  view_pageSize : nat
}.

Definition display {World : Type} (tp : table_props World)
    (st : table_state) : view :=
  mk_view
    (sortData (default (tp_defaultSorted tp) (sorted st))
              (filterData (tp_columns tp) (filtered st) (tp_data tp)))
    (tp_pageSizeOptions tp)
    (tp_pageSize tp).
End Widget.

End ReactTable.

(* ===================================================================== *)
(** * The revision subsystem                                              *)
(* ===================================================================== *)

(** The commands the buttons dispatch ([changeLabel], [changeToSkip]) are
    served by the backend, whose code is not among the sources.  This module
    follows the specification's description of it: an append-only Revision
    Store, a Current-Label Projection, and a command handler. *)

Module Revision.
Import StableSort.

(** Modelled from the spec: the four error kinds of the revision
    subsystem (the backend is missing from the sources). *)
Inductive error : Type :=
| ConflictError
| StaleStateError
| NotFoundError
| ValidationError.

Section Model.
Context {Item : Type} `{Countable Item}.
Context {LabelId : Type} `{EqDecision LabelId}.

(** Modelled from the spec: a label reference of the missing backend,
    which is null for an item never labelled ("unset"), the reserved
    "skipped" sentinel, or the id of a label. *)
Inductive label_ref : Type :=
| Unset
| Skipped
| Label (l : LabelId).

#[global] Instance label_ref_eq_dec : EqDecision label_ref.
Proof. solve_decision. Defined.

(** Modelled from the spec: the LabelEvent record of the missing
    Revision Store. *)
Record LabelEvent : Type := mk_event {
  event_id : nat;
  item_id : Item;
  previous_label_id : label_ref;
  new_label_id : label_ref;
  timestamp : Z;
  raw_data : string
}.

(** Modelled from the spec: an entry of the missing Current-Label
    Projection, [item_id -> {current_label_id, as_of_event_id}]. *)
Record entry : Type := mk_entry {
  current_label_id : label_ref;
  as_of_event_id : nat
}.

(** Modelled from the spec: the state of the missing backend, the
    append-only event ledger together with the derived projection. *)
Record state : Type := mk_state {
  store : list LabelEvent;
  projection : gmap Item entry
}.

(** Modelled from the spec: the missing empty initial state. *)
Definition init : state := mk_state [] ∅.

(** Modelled from the spec: the events of one item, in ledger order
    (helper of the missing Revision Store). *)
Definition events_of (i : Item) (s : list LabelEvent) : list LabelEvent :=
  filter (λ e, item_id e = i) s.

(** Modelled from the spec: the chain tip of an item in the missing
    Revision Store, the [new_label_id] of its most recent event, null
    when it has none. *)
Definition chain_tip (s : list LabelEvent) (i : Item) : label_ref :=
  default Unset (new_label_id <$> last (events_of i s)).

(** Modelled from the spec: [append(event) -> event_id] of the missing
    Revision Store.  It fails with [ConflictError] when the event's
    [previous_label_id] is not the item's chain tip; event ids are
    assigned in increasing order. *)
Definition append (s : list LabelEvent) (i : Item) (prev new : label_ref)
    (ts : Z) (data : string) : error + (list LabelEvent * nat) :=
  if decide (prev = chain_tip s i)
  then inr (s ++ [mk_event (length s) i prev new ts data], length s)
  else inl ConflictError.

(** Modelled from the spec: the order of [read_all] of the missing
    Revision Store, by timestamp ascending. *)
Definition by_timestamp (a b : LabelEvent) : comparison :=
  Z.compare (timestamp a) (timestamp b).

(** Modelled from the spec: [read_all(item_id?)] of the missing Revision
    Store, the events (of one item, or all) ordered by timestamp. *)
Definition read_all (oi : option Item) (s : list LabelEvent) : list LabelEvent :=
  sort_by by_timestamp
    match oi with
    | Some i => events_of i s
    | None => s
    end.

(** Modelled from the spec: [get(item_id)] of the missing projection,
    answering "unset" for an item without entry. *)
Definition get (p : gmap Item entry) (i : Item) : label_ref :=
  match p !! i with
  | Some e => current_label_id e
  | None => Unset
  end.

(** Modelled from the spec: how one event advances the missing
    projection; the item's entry becomes the event's new label. *)
Definition apply_event (p : gmap Item entry) (e : LabelEvent) : gmap Item entry :=
  <[item_id e := mk_entry (new_label_id e) (event_id e)]> p.

(** Modelled from the spec: [rebuild()] of the missing projection, a
    fold of the Revision Store from the empty state in which the last
    event of each item wins. *)
Definition rebuild (s : list LabelEvent) : gmap Item entry :=
  foldl apply_event ∅ (read_all None s).

(** Modelled from the spec: replay of one item (the backend is missing),
    all its events in timestamp order, keeping the last
    [new_label_id]. *)
Definition replay (i : Item) (s : list LabelEvent) : option label_ref :=
  new_label_id <$> last (read_all (Some i) s).

(** Modelled from the spec: [current_labels()] of the missing backend,
    the items whose current state is a label. *)
Definition current_labels (p : gmap Item entry) : gmap Item LabelId :=
  omap (λ e, match current_label_id e with
             | Label l => Some l
             | _ => None
             end) p.

(** The text an item carries (the item catalogue is outside the
    subsystem). *)
Variable item_data : Item -> string.

(** Modelled from the spec: the write shared by both commands of the
    missing handler, one append to the store and the matching update of
    the projection. *)
Definition write (st : state) (now : Z) (i : Item) (prev new : label_ref)
    : state * (error + option nat) :=
  match append (store st) i prev new now (item_data i) with
  | inl err => (st, inl err)
  | inr (s', eid) =>
      (mk_state s' (<[i := mk_entry new eid]> (projection st)),
       inr (Some eid))
  end.

(** Modelled from the spec: [relabel(item_id, expected_previous_label_id,
    new_label_id)] of the missing Revision Command Handler.  It fails
    with [StaleStateError] on a stale expectation, does nothing when the
    new label is the expected one, and otherwise appends an event and
    advances the projection.  The result is the new event's id, if
    any. *)
Definition relabel (st : state) (now : Z) (i : Item)
    (expected new : label_ref) : state * (error + option nat) :=
  if decide (expected = get (projection st) i) then
    if decide (new = expected) then (st, inr None)
    else write st now i expected new
  else (st, inl StaleStateError).

(** Modelled from the spec: [skip(item_id, expected_previous_label_id)]
    of the missing handler, the same staleness check followed by an
    event whose new label is the "skipped" sentinel. *)
Definition skip (st : state) (now : Z) (i : Item) (expected : label_ref)
    : state * (error + option nat) :=
  if decide (expected = get (projection st) i)
  then write st now i expected Skipped
  else (st, inl StaleStateError).

(** Modelled from the spec: the two commands of the missing handler. *)
Inductive command : Type :=
| Relabel (i : Item) (expected new : label_ref)
| Skip (i : Item) (expected : label_ref).

(** Modelled from the spec: the missing handler serving one command at
    clock reading [now]. *)
Definition handle (st : state) (now : Z) (c : command)
    : state * (error + option nat) :=
  match c with
  | Relabel i expected new => relabel st now i expected new
  | Skip i expected => skip st now i expected
  end.

(** Modelled from the spec: the state of the missing backend after a
    sequence of commands, each stamped with its clock reading; a failed
    command leaves the state as it was. *)
Definition run (cmds : list (Z * command)) : state :=
  foldl (λ st tc, (handle st tc.1 tc.2).1) init cmds.

(** Modelled from the spec: consistency of the missing backend's state,
    the projection being the latest event per item of the ledger, in
    ledger order. *)
Definition consistent (st : state) : Prop :=
  projection st = foldl apply_event ∅ (store st).

(** Modelled from the spec: the data-model invariant of the missing
    store that timestamps strictly increase within an item's chain of
    events. *)
Fixpoint chain_increasing (s : list LabelEvent) : bool :=
  match s with
  | [] => true
  | e :: s' =>
      forallb (λ e', if decide (item_id e' = item_id e)
                     then (timestamp e <? timestamp e')%Z
                     else true) s'
      && chain_increasing s'
  end.
(** Modelled from the spec: a clock of the missing handler whose readings
    strictly increase from each command to the later ones (events are
    stamped with their creation time). *)
Fixpoint clock_increasing (cmds : list (Z * command)) : bool :=
  match cmds with
  | [] => true
  | tc :: rest =>
      forallb (λ tc', (tc.1 <? tc'.1)%Z) rest && clock_increasing rest
  end.
End Model.

Arguments label_ref : clear implicits.
Arguments LabelEvent : clear implicits.
Arguments entry : clear implicits.
Arguments state Item {_ _} LabelId.
Arguments command : clear implicits.

End Revision.

(* ===================================================================== *)
(** * Vocabulary of the statements                                        *)
(* ===================================================================== *)

Module Statements.
Import Js HistoryTable.

(** [t] occurs in [s] as a contiguous run of characters. *)
Definition substring_of (t s : string) : Prop :=
  ∃ pre post : string, s = pre +:+ t +:+ post.

(** The growth sequence of the page-size menu: it starts at 5 and each
    size is the previous one plus 5 times the growth counter, which is 2
    at the first step and one more at every further step. *)
Fixpoint growth_size (k : nat) : nat :=
  match k with
  | O => 5
  | S k' => growth_size k' + 5 * (k' + 2)
  end.

(** The last entry of [l] equals or falls below an entry before it. *)
Definition final_not_above_earlier (l : list nat) : Prop :=
  ∃ (front : list nat) (final earlier : nat),
    l = front ++ [final] ∧ earlier ∈ front ∧ final ≤ earlier.

(** A world that only logs what the component dispatches; it serves to
    run the component on concrete inputs. *)
Inductive action : Type :=
| GetHistory
| ChangeLabel (id old_label_id new_label_id : jsval)
| ChangeToSkip (id old_label_id : jsval).

Definition recorder (history : option (list (list row)))
    (labels : list label_t) : props (list action) :=
  mk_props
    (λ log, log ++ [GetHistory])
    history
    (Some labels)
    (λ id old new log, log ++ [ChangeLabel id old new])
    (λ id old log, log ++ [ChangeToSkip id old]).

(** A comparison of column values that orders numbers by value; it
    serves to run the table on numeric timestamps. *)
Definition numeric_compare (a b : jsval) : comparison :=
  match a, b with
  | JNum x, JNum y => Z.compare x y
  | _, _ => Eq
  end.

Definition is_number (v : jsval) : Prop :=
  match v with JNum _ => True | _ => False end.

(** A stand-in for the widget's default filter on the other columns. *)
Definition keep_all (f : filter_t) (r : row) : bool := true.

(** Sample rows: [n] rows whose data is [text]. *)
Definition sample_row (text : string) (ts : Z) : row :=
  mk_row (JNum ts) (JStr text) (JStr "spam") (JNum 1) (JNum ts).

Definition sample_rows (text : string) (n : nat) : list row :=
  map (λ k, sample_row text (Z.of_nat k)) (seq 0 n).

End Statements.

Import Js StableSort HistoryTable ReactTable Statements.

(* ===================================================================== *)
(** * The page-size menu                                                  *)
(* ===================================================================== *)

Section PageSizes.

Lemma page_sizes_loop_step len i counter acc :
  page_sizes_loop len i counter acc =
  if decide (i < len)
  then page_sizes_loop len (i + 5 * (counter + 1)) (counter + 1) (acc ++ [i])
  else acc.
Proof.
  rewrite page_sizes_loop_equation_1.
  destruct (decide (i < len)); reflexivity.
Qed.

Lemma growth_size_step k :
  growth_size k + 5 * (k + 1 + 1) = growth_size (S k).
Proof. simpl. lia. Qed.

Lemma growth_size_increasing j k : j < k → growth_size j < growth_size k.
Proof.
  induction 1 as [|k' _ IH]; simpl; lia.
Qed.

Lemma growth_size_lower k : 5 ≤ growth_size k.
Proof. induction k; simpl; lia. Qed.

(** The loop, started on the [k]-th size with the counter at [k + 1],
    pushes the sizes from the [k]-th on that lie below [len]. *)
Lemma page_sizes_loop_growth len n : ∀ k acc,
  len - growth_size k ≤ n →
  ∃ m, page_sizes_loop len (growth_size k) (k + 1) acc
         = acc ++ map growth_size (seq k m)
       ∧ (∀ j, k ≤ j < k + m → growth_size j < len)
       ∧ len ≤ growth_size (k + m).
Proof.
  induction n as [|n IH]; intros k acc Hn;
    rewrite page_sizes_loop_step; destruct (decide (growth_size k < len)) as [Hlt|Hge].
  - lia.
  - exists 0. rewrite Nat.add_0_r, app_nil_r. repeat split; [intros; lia | lia].
  - rewrite growth_size_step.
    replace (k + 1 + 1) with (S k + 1) by lia.
    destruct (IH (S k) (acc ++ [growth_size k])) as (m & Heq & Hbelow & Hstop).
    { pose proof (growth_size_increasing k (S k)). lia. }
    exists (S m). rewrite Heq. simpl. rewrite <- app_assoc. simpl.
    repeat split.
    + intros j Hj. destruct (decide (j = k)) as [->|]; [done | apply Hbelow; lia].
    + replace (k + S m) with (S k + m) by lia. done.
  - exists 0. rewrite Nat.add_0_r, app_nil_r. repeat split; [intros; lia | lia].
Qed.

(** The whole menu: the constant 1, the growth sizes below the row count,
    the row count. *)
Lemma page_sizes_shape len :
  ∃ m, page_sizes len = 1 :: map growth_size (seq 0 m) ++ [len]
       ∧ (∀ k, k < m → growth_size k < len)
       ∧ len ≤ growth_size m.
Proof.
  destruct (page_sizes_loop_growth len len 0 [1]) as (m & Heq & Hbelow & Hstop);
    [lia|].
  exists m. unfold page_sizes.
  change (growth_size 0) with 5 in Heq. change (0 + 1) with 1 in Heq.
  rewrite Heq. repeat split; [intros; apply Hbelow; lia | done].
Qed.

Lemma page_sizes_small len : len ≤ 5 → page_sizes len = [1; len].
Proof.
  intros Hle. unfold page_sizes. rewrite page_sizes_loop_step.
  destruct (decide (5 < len)); [lia | reflexivity].
Qed.

Lemma final_not_above_earlier_iff len :
  final_not_above_earlier (page_sizes len) ↔ len ≤ 1.
Proof.
  split.
  - intros (front & final & earlier & Heq & Hin & Hle).
    destruct (page_sizes_shape len) as (m & Hshape & Hbelow & _).
    rewrite Hshape in Heq.
    change (1 :: map growth_size (seq 0 m) ++ [len])
      with ((1 :: map growth_size (seq 0 m)) ++ [len]) in Heq.
    apply app_inj_tail in Heq as [<- <-].
    apply elem_of_cons in Hin as [->|Hin]; [done|].
    apply list_elem_of_fmap in Hin as (k & -> & Hk).
    apply elem_of_seq in Hk. specialize (Hbelow k). lia.
  - intros Hle. rewrite page_sizes_small by lia.
    exists [1], len, 1. repeat split; [set_solver | done].
Qed.

End PageSizes.

Section RenderedMenu.
Context {World : Type}.
Variable toLowerCase : string → string.
Variable p : props World.

Let tp := render toLowerCase p.
Let total := length (tp_data tp).

Lemma render_pageSizeOptions :
  tp_pageSizeOptions tp = page_sizes total.
Proof. reflexivity. Qed.

Lemma render_pageSize : tp_pageSize tp = pageSize total.
Proof. reflexivity. Qed.

(** C1 (as amended).  The page-size options of a rendered table are the
    constant 1, then the growth sequence 5, 15, 30, 50, ... (each size is
    the previous one plus 5 times the growth counter, which is 2 at the
    first step and grows by one per step) for as long as the size is
    strictly below the row count, then the row count itself; a table of
    12 rows gets the options 1, 5, 12. *)
Theorem page_size_options_growth :
  (growth_size 0 = 5 ∧ ∀ k, growth_size (S k) = growth_size k + 5 * (k + 2))
  ∧ (∃ m, tp_pageSizeOptions tp = 1 :: map growth_size (seq 0 m) ++ [total]
          ∧ (∀ k, k < m → growth_size k < total)
          ∧ total ≤ growth_size m)
  ∧ (total = 12 → tp_pageSizeOptions tp = [1; 5; 12]).
Proof.
  split; [split; [reflexivity | intros k; reflexivity] |].
  split; [apply page_sizes_shape |].
  rewrite render_pageSizeOptions. intros ->. reflexivity.
Qed.

(** C8 (as amended).  The page-size options of a rendered table begin
    with the constant 1 and end with the exact row count; they are 1, 0
    for an empty table and 1, total whenever the total is at most 5; the
    final entry equals or falls below an earlier entry exactly when the
    total is at most 1 (a total of 1 gives 1, 1). *)
Theorem page_size_options_ends :
  (∃ middle, tp_pageSizeOptions tp = 1 :: middle ++ [total])
  ∧ (total = 0 → tp_pageSizeOptions tp = [1; 0])
  ∧ (total ≤ 5 → tp_pageSizeOptions tp = [1; total])
  ∧ (final_not_above_earlier (tp_pageSizeOptions tp) ↔ total ≤ 1)
  ∧ (total = 1 → tp_pageSizeOptions tp = [1; 1]).
Proof.
  rewrite render_pageSizeOptions.
  split; [| split; [| split; [| split]]].
  - destruct (page_sizes_shape total) as (m & Heq & _). eauto.
  - intros ->. reflexivity.
  - apply page_sizes_small.
  - apply final_not_above_earlier_iff.
  - intros ->. reflexivity.
Qed.

(** C9.  The initial page size of a rendered table is the row count when
    that is below 50 and exactly 50 otherwise, the minimum of the two. *)
Theorem page_size_is_min_total_50 :
  tp_pageSize tp = Nat.min total 50
  ∧ (total < 50 → tp_pageSize tp = total)
  ∧ (50 ≤ total → tp_pageSize tp = 50).
Proof.
  rewrite render_pageSize. unfold pageSize.
  destruct (Nat.ltb_spec total 50); repeat split; lia.
Qed.

(** C3 (as amended).  The page-size options on display are computed by
    [render] from the number of rows of the whole table data; whatever
    filters and sort the user has set, they are the same list. *)
Theorem page_size_options_ignore_filters
    (defaultFilterMethod : filter_t → row → bool)
    (defaultSortMethod : jsval → jsval → comparison)
    (st : table_state) :
  view_pageSizeOptions (display defaultFilterMethod defaultSortMethod tp st)
    = page_sizes (length (table_data (history_data p)))
  ∧ view_pageSizeOptions (display defaultFilterMethod defaultSortMethod tp st)
    = view_pageSizeOptions
        (display defaultFilterMethod defaultSortMethod tp initial_state).
Proof. split; reflexivity. Qed.

End RenderedMenu.

(** C1, counterexample.  A table of 12 rows is offered the page sizes
    1, 5, 12: the list does not start at 5 and 10 is not among the
    options. *)
Lemma page_size_options_12_rows :
  let tp := render ascii_toLowerCase (recorder (Some [sample_rows "note" 12]) []) in
  length (tp_data tp) = 12
  ∧ tp_pageSizeOptions tp = [1; 5; 12]
  ∧ tp_pageSizeOptions tp ≠ [5; 10; 12].
Proof. vm_compute. repeat split; discriminate. Qed.

(** C8, counterexample.  A table of 3 rows (at most 5) is offered the page
    sizes 1, 3, whose final entry neither equals nor falls below the entry
    before it. *)
Lemma page_size_options_3_rows :
  let tp := render ascii_toLowerCase (recorder (Some [sample_rows "note" 3]) []) in
  length (tp_data tp) = 3
  ∧ length (tp_data tp) ≤ 5
  ∧ tp_pageSizeOptions tp = [1; 3]
  ∧ ¬ final_not_above_earlier (tp_pageSizeOptions tp).
Proof.
  cbv zeta. split; [reflexivity |]. split; [vm_compute; lia |].
  split; [reflexivity |].
  change (¬ final_not_above_earlier (page_sizes 3)).
  rewrite final_not_above_earlier_iff. lia.
Qed.

(** C3, counterexample.  With the filter "BAN" on the Data column, a table
    of 12 rows of which one matches and a table of that one row both show a
    single row, yet the first is offered the page sizes 1, 5, 12 and the
    second 1, 1: the options follow the unfiltered row count, not the
    number of rows that match. *)
Lemma page_size_options_not_by_match_count :
  let big := recorder (Some [sample_rows "apple" 11 ++ [sample_row "banana" 11]]) [] in
  let small := recorder (Some [[sample_row "banana" 11]]) [] in
  let st := ReactTable.mk_state [mk_filter "data" "BAN"] None in
  let show_ p := display keep_all numeric_compare (render ascii_toLowerCase p) st in
  length (view_rows (show_ big)) = 1
  ∧ length (view_rows (show_ small)) = 1
  ∧ view_pageSizeOptions (show_ big) = [1; 5; 12]
  ∧ view_pageSizeOptions (show_ small) = [1; 1]
  ∧ view_pageSizeOptions (show_ big) ≠ page_sizes (length (view_rows (show_ big))).
Proof. vm_compute. repeat split; discriminate. Qed.

(* ===================================================================== *)
(** * Strict equality and substring search                                *)
(* ===================================================================== *)

Section JsFacts.

Lemma strict_eq_refl v : strict_eq v v = true.
Proof.
  destruct v as [| |b|n|s]; simpl; try reflexivity.
  - destruct b; reflexivity.
  - apply Z.eqb_refl.
  - apply String.eqb_refl.
Qed.

Lemma strict_eq_true a b : strict_eq a b = true ↔ a = b.
Proof.
  split; [| intros ->; apply strict_eq_refl].
  destruct a, b; simpl; try discriminate; try reflexivity.
  - intros Hb. apply Bool.eqb_prop in Hb. congruence.
  - intros Hn. apply Z.eqb_eq in Hn. congruence.
  - intros Hs. apply String.eqb_eq in Hs. congruence.
Qed.

Lemma append_cons c (t s : string) : String c t +:+ s = String c (t +:+ s).
Proof. reflexivity. Qed.

Lemma prefix_true t : ∀ s,
  String.prefix t s = true ↔ ∃ post, s = t +:+ post.
Proof.
  induction t as [|c t IH]; intros [|d s]; simpl.
  - split; [eauto | reflexivity].
  - split; [eauto | reflexivity].
  - split; [discriminate | intros [post Hpost]; discriminate].
  - destruct (Ascii.ascii_dec c d) as [->|Hne].
    + rewrite IH.
      split; intros [post Hpost]; exists post; rewrite append_cons in *; congruence.
    + split; [discriminate |].
      intros [post Hpost]. rewrite append_cons in Hpost. congruence.
Qed.

Lemma includes_true t : ∀ s, includes s t = true ↔ substring_of t s.
Proof.
  induction s as [|c s IH];
    [change (includes "" t) with (String.prefix t "" || false)
    |change (includes (String c s) t)
       with (String.prefix t (String c s) || includes s t)];
    rewrite orb_true_iff, prefix_true.
  - split.
    + intros [[post Hpost] | Hf]; [| discriminate]. exists "", post. done.
    + intros (pre & post & Heq). left.
      destruct pre; [eauto | discriminate].
  - rewrite IH. split.
    + intros [[post Hpost] | (pre & post & Heq)].
      * exists "", post. done.
      * exists (String c pre), post. rewrite append_cons. congruence.
    + intros (pre & post & Heq). destruct pre as [|d pre].
      * left. eauto.
      * right. exists pre, post. rewrite append_cons in Heq. congruence.
Qed.

End JsFacts.

(* ===================================================================== *)
(** * The filter of the Data column                                       *)
(* ===================================================================== *)

Section DataFilter.
Variable toLowerCase : string → string.
Variable defaultFilterMethod : filter_t → row → bool.

Lemma data_filterMethod_true f r :
  data_filterMethod toLowerCase f r = true
  ↔ substring_of (toLowerCase (filter_value f))
                 (toLowerCase (String_ (row_data r))).
Proof.
  unfold data_filterMethod. rewrite <- includes_true.
  change (row_get r "data") with (row_data r).
  destruct (includes _ _); intuition congruence.
Qed.

Lemma find_data_column :
  find_column (columns toLowerCase) "data"
  = Some (mk_column "Data" "data" None None None
                    (Some (data_filterMethod toLowerCase))).
Proof. reflexivity. Qed.

(** C5.  A row passes the filter of the Data column exactly when its
    lowercased data, as a string, contains the lowercased filter text as a
    substring; a filter on that column keeps exactly the rows that pass,
    and without a filter all rows are kept. *)
Theorem data_filter_case_insensitive_substring :
  (∀ f r,
      data_filterMethod toLowerCase f r = true
      ↔ substring_of (toLowerCase (filter_value f))
                     (toLowerCase (String_ (row_data r))))
  ∧ (∀ f id text old_label old_label_id timestamp,
      data_filterMethod toLowerCase f
        (mk_row id (JStr text) old_label old_label_id timestamp) = true
      ↔ substring_of (toLowerCase (filter_value f)) (toLowerCase text))
  ∧ (∀ value rows,
      filterData defaultFilterMethod (columns toLowerCase)
                 [mk_filter "data" value] rows
      = List.filter (data_filterMethod toLowerCase (mk_filter "data" value)) rows)
  ∧ (∀ rows,
      filterData defaultFilterMethod (columns toLowerCase) [] rows = rows).
Proof.
  split; [exact data_filterMethod_true |].
  split; [intros; apply data_filterMethod_true |].
  split; [| reflexivity].
  intros value rows. unfold filterData. simpl. unfold apply_filter.
  simpl filter_id. rewrite find_data_column. reflexivity.
Qed.

End DataFilter.

(* ===================================================================== *)
(** * The click handlers                                                  *)
(* ===================================================================== *)

Section Clicks.
Context {World : Type}.
Variable p : props World.

(** C2.  Clicking the button of the label a row already has (the label's
    key is the row's old label id) dispatches nothing: [changeLabel] is
    not called and the application state, hence every item's history,
    is as it was. *)
Theorem same_label_click_is_noop (r : row) (label : label_t) (w : World) :
  pk label = row_old_label_id r →
  label_onClick p r label w = w.
Proof.
  intros Hsame. unfold label_onClick.
  rewrite Hsame, strict_eq_refl. reflexivity.
Qed.

Lemma other_label_click_dispatches (r : row) (label : label_t) (w : World) :
  pk label ≠ row_old_label_id r →
  label_onClick p r label w
  = changeLabel p (row_id r) (row_old_label_id r) (pk label) w.
Proof.
  intros Hne. unfold label_onClick.
  destruct (strict_eq (row_old_label_id r) (pk label)) eqn:Heq;
    [| reflexivity].
  apply strict_eq_true in Heq. congruence.
Qed.

(** What a toolbar that could be built looks like. *)
Lemma SubComponent_Some (r : row) (sub : sub_row World) :
  SubComponent p r = Some sub →
  ∃ ls buttons,
    labels p = Some ls
    ∧ mapM (label_button p r) ls = Some buttons
    ∧ sub = mk_sub_row (row_data r)
              (buttons ++ [mk_button None "Skip" "info" (skip_onClick p r)]).
Proof.
  unfold SubComponent. intros Hsub.
  destruct (labels p) as [ls|]; [| done].
  destruct (mapM (label_button p r) ls) as [buttons|] eqn:Hbuttons; [| done].
  exists ls, buttons. by injection Hsub as <-.
Qed.

(** C10.  A click on Skip always calls [changeToSkip] with the row's id
    and its old label id, whatever the row: no condition guards the
    handler, the Skip button closes the toolbar of every row whose
    sub-component can be built, and the log of dispatched commands grows by
    that one command at every click. *)
Theorem skip_click_always_dispatches (r : row) (w : World) :
  skip_onClick p r w = changeToSkip p (row_id r) (row_old_label_id r) w
  ∧ (∀ sub, SubComponent p r = Some sub →
       last (sub_toolbar sub)
       = Some (mk_button None "Skip" "info" (skip_onClick p r)))
  ∧ ∀ history labels log,
      skip_onClick (recorder history labels) r log
      = log ++ [ChangeToSkip (row_id r) (row_old_label_id r)].
Proof.
  split; [reflexivity |]. split; [| reflexivity].
  intros sub Hsub.
  apply SubComponent_Some in Hsub as (ls & buttons & _ & _ & ->).
  apply last_snoc.
Qed.

End Clicks.

(** Witness of C10: a row labelled 7 under the labels 7 and 8; its toolbar
    is built and ends with the Skip button, whose click logs the skip. *)
Lemma skip_click_always_dispatches_witness :
  let r := mk_row (JNum 42) (JStr "free text") (JStr "spam") (JNum 7) (JNum 3) in
  let p := recorder None [mk_label (JNum 7) "spam"; mk_label (JNum 8) "ham"] in
  let sub :=
    mk_sub_row (JStr "free text")
      [ mk_button (Some "7_his_42") "spam" "primary"
                  (label_onClick p r (mk_label (JNum 7) "spam"));
        mk_button (Some "8_his_42") "ham" "primary"
                  (label_onClick p r (mk_label (JNum 8) "ham"));
        mk_button None "Skip" "info" (skip_onClick p r) ] in
  SubComponent p r = Some sub
  ∧ last (sub_toolbar sub) = Some (mk_button None "Skip" "info" (skip_onClick p r))
  ∧ skip_onClick p r [] = [ChangeToSkip (JNum 42) (JNum 7)].
Proof.
  cbv zeta.
  set (r := mk_row (JNum 42) (JStr "free text") (JStr "spam") (JNum 7) (JNum 3)).
  set (p := recorder None [mk_label (JNum 7) "spam"; mk_label (JNum 8) "ham"]).
  assert (SubComponent p r
          = Some (mk_sub_row (JStr "free text")
                    [ mk_button (Some "7_his_42") "spam" "primary"
                                (label_onClick p r (mk_label (JNum 7) "spam"));
                      mk_button (Some "8_his_42") "ham" "primary"
                                (label_onClick p r (mk_label (JNum 8) "ham"));
                      mk_button None "Skip" "info" (skip_onClick p r) ]))
    as Hbuilt by reflexivity.
  split; [exact Hbuilt |].
  destruct (skip_click_always_dispatches p r []) as (_ & Hlast & Hlog).
  split; [exact (Hlast _ Hbuilt) | exact (Hlog None _ [])].
Defined.

(** Witness of C2: on a row labelled 7, clicking label 7 leaves the log of
    dispatched commands empty. *)
Lemma same_label_click_is_noop_witness :
  let r := mk_row (JNum 42) (JStr "free text") (JStr "spam") (JNum 7) (JNum 3) in
  let label := mk_label (JNum 7) "spam" in
  pk label = row_old_label_id r
  ∧ label_onClick (recorder None [label]) r label [] = [].
Proof.
  cbv zeta. split; [reflexivity |].
  apply (same_label_click_is_noop (recorder None [mk_label (JNum 7) "spam"])).
  reflexivity.
Defined.

(* ===================================================================== *)
(** * The stable sort                                                     *)
(* ===================================================================== *)

Lemma StronglySorted_weaken {A : Type} (R1 R2 : A → A → Prop) l :
  (∀ a b, R1 a b → R2 a b) → StronglySorted R1 l → StronglySorted R2 l.
Proof.
  intros Himp. induction 1 as [|x l Hl IH Hx]; constructor; [done |].
  eapply Forall_impl; [exact Hx | apply Himp].
Qed.

Section StableSortFacts.
Context {A : Type}.
Variable cmp : A → A → comparison.

Local Abbreviation not_after := (not_after cmp).

Lemma Forall_filter_stdpp (R Q : A → Prop) `{∀ x, Decision (Q x)} l :
  Forall R l → Forall R (filter Q l).
Proof.
  rewrite !Forall_forall. intros Hl x Hx.
  apply list_elem_of_filter in Hx as [_ Hx]. auto.
Qed.

Lemma insert_by_perm x l : insert_by cmp x l ≡ₚ x :: l.
Proof.
  induction l as [|y l IH]; simpl; [done |].
  destruct (cmp x y); [done | done |].
  rewrite IH. apply Permutation_swap.
Qed.

Lemma sort_by_perm l : sort_by cmp l ≡ₚ l.
Proof.
  induction l as [|x l IH]; simpl; [done |].
  change (insert_by cmp x (sort_by cmp l) ≡ₚ x :: l).
  rewrite insert_by_perm. by rewrite IH.
Qed.

Lemma insert_by_head x l : HdRel not_after x l → insert_by cmp x l = x :: l.
Proof.
  destruct 1 as [|y l Hxy]; simpl; [done |].
  unfold not_after in Hxy. destruct (cmp x y); done.
Qed.

(** A list already in order is left as it is. *)
Lemma sort_by_sorted_id l : Sorted not_after l → sort_by cmp l = l.
Proof.
  induction 1 as [|x l Hl IH Hx]; [done |].
  change (insert_by cmp x (sort_by cmp l) = x :: l).
  rewrite IH. by apply insert_by_head.
Qed.

(** The order facts hold on the elements that satisfy [P]. *)
Variable P : A → Prop.
Hypothesis cmp_total : ∀ x y, P x → P y → cmp x y = Gt → cmp y x ≠ Gt.
Hypothesis cmp_trans :
  ∀ x y z, P x → P y → P z → not_after x y → not_after y z → not_after x z.

Lemma insert_by_sorted x l :
  P x → Forall P l → Sorted not_after l → Sorted not_after (insert_by cmp x l).
Proof.
  intros Px Pl Hl. induction Hl as [|y l Hl IH Hy]; simpl.
  - repeat constructor.
  - apply Forall_cons in Pl as [Py Pl].
    destruct (cmp x y) eqn:Hxy.
    + repeat constructor; [done | done | unfold not_after; congruence].
    + repeat constructor; [done | done | unfold not_after; congruence].
    + constructor; [by apply IH |].
      destruct Hy as [|z l Hyz]; simpl.
      * constructor. by apply cmp_total.
      * destruct (cmp x z); constructor; try done; by apply cmp_total.
Qed.

Lemma sort_by_Forall (Q : A → Prop) l : Forall Q l → Forall Q (sort_by cmp l).
Proof. intros Hl. by rewrite sort_by_perm. Qed.

Lemma sort_by_sorted l : Forall P l → Sorted not_after (sort_by cmp l).
Proof.
  induction 1 as [|x l Px Pl IH]; [constructor |].
  change (Sorted not_after (insert_by cmp x (sort_by cmp l))).
  apply insert_by_sorted; [done | by apply sort_by_Forall | done].
Qed.

Lemma sorted_strongly l :
  Forall P l → Sorted not_after l → StronglySorted not_after l.
Proof.
  intros Pl Hl. induction Hl as [|x l Hl IH Hx]; [constructor |].
  apply Forall_cons in Pl as [Px Pl]. specialize (IH Pl).
  constructor; [done |].
  destruct Hx as [|y l Hxy]; [constructor |].
  apply StronglySorted_inv in IH as [_ Hy].
  apply Forall_cons in Pl as [Py Pl].
  constructor; [done |].
  rewrite Forall_forall in Hy, Pl |- *.
  intros z Hz. apply (cmp_trans x y z); auto.
Qed.

Lemma sort_by_strongly_sorted l :
  Forall P l → StronglySorted not_after (sort_by cmp l).
Proof.
  intros Pl. apply sorted_strongly; [by apply sort_by_Forall | by apply sort_by_sorted].
Qed.

(** Selecting elements commutes with inserting into an ordered list. *)
Lemma filter_insert_by (Q : A → Prop) `{∀ x, Decision (Q x)} x l :
  P x → Forall P l → StronglySorted not_after l →
  filter Q (insert_by cmp x l)
  = if decide (Q x) then insert_by cmp x (filter Q l) else filter Q l.
Proof.
  intros Px Pl Hl. induction Hl as [|y l Hl IH Hy]; simpl.
  - rewrite filter_cons, filter_nil. by destruct (decide (Q x)).
  - apply Forall_cons in Pl as [Py Pl]. specialize (IH Pl).
    destruct (cmp x y) eqn:Hxy.
    3: { rewrite !filter_cons, IH.
         destruct (decide (Q y)), (decide (Q x)); simpl; try done.
         by rewrite Hxy. }
    all: rewrite (filter_cons _ x); destruct (decide (Q x)); [| done].
    all: symmetry; apply insert_by_head.
    all: assert (Forall (not_after x) (y :: l)) as Hall
      by (constructor; [unfold not_after; congruence |];
          rewrite Forall_forall in Hy, Pl |- *; intros z Hz;
          apply (cmp_trans x y z); auto; unfold not_after; congruence).
    all: assert (Forall (not_after x) (filter Q (y :: l))) as Hsub
      by (by apply Forall_filter_stdpp).
    all: destruct Hsub; by constructor.
Qed.

Lemma filter_sort_by (Q : A → Prop) `{∀ x, Decision (Q x)} l :
  Forall P l → filter Q (sort_by cmp l) = sort_by cmp (filter Q l).
Proof.
  induction 1 as [|x l Px Pl IH]; [done |].
  change (sort_by cmp (x :: l)) with (insert_by cmp x (sort_by cmp l)).
  rewrite filter_insert_by;
    [| done | by apply sort_by_Forall | by apply sort_by_strongly_sorted].
  rewrite filter_cons. destruct (decide (Q x)); [| done].
  change (sort_by cmp (x :: filter Q l))
    with (insert_by cmp x (sort_by cmp (filter Q l))).
  by rewrite IH.
Qed.

End StableSortFacts.

(* ===================================================================== *)
(** * The default sort                                                    *)
(* ===================================================================== *)

Section DefaultSort.
Context {World : Type}.
Variable toLowerCase : string → string.
Variable defaultFilterMethod : filter_t → row → bool.
Variable defaultSortMethod : jsval → jsval → comparison.

(** The kind of values the timestamp column holds; on them the widget's
    comparison is a total preorder. *)
Variable timestamp_like : jsval → Prop.
Hypothesis compare_swap : ∀ a b,
  timestamp_like a → timestamp_like b →
  defaultSortMethod b a = CompOpp (defaultSortMethod a b).
Hypothesis compare_trans : ∀ a b c,
  timestamp_like a → timestamp_like b → timestamp_like c →
  defaultSortMethod a b ≠ Gt → defaultSortMethod b c ≠ Gt →
  defaultSortMethod a c ≠ Gt.

(** [a]'s timestamp is not older than [b]'s. *)
Local Abbreviation newer_first :=
  (λ a b : row, defaultSortMethod (row_timestamp a) (row_timestamp b) ≠ Lt).
Local Abbreviation has_timestamp := (λ r : row, timestamp_like (row_timestamp r)).

Lemma compare_rows_defaultSorted a b :
  compare_rows defaultSortMethod defaultSorted a b
  = CompOpp (defaultSortMethod (row_timestamp a) (row_timestamp b)).
Proof.
  unfold defaultSorted. simpl.
  change (row_get a "timestamp") with (row_timestamp a).
  change (row_get b "timestamp") with (row_timestamp b).
  by destruct (defaultSortMethod _ _).
Qed.

Lemma not_after_defaultSorted a b :
  not_after (compare_rows defaultSortMethod defaultSorted) a b ↔ newer_first a b.
Proof.
  unfold not_after. rewrite compare_rows_defaultSorted.
  destruct (defaultSortMethod _ _); simpl; split; congruence.
Qed.

Lemma filterData_Forall (Q : row → Prop) cols fs rows :
  Forall Q rows → Forall Q (filterData defaultFilterMethod cols fs rows).
Proof.
  unfold filterData. revert rows.
  induction fs as [|f fs IH]; intros rows Hrows; simpl; [done |].
  apply IH. unfold apply_filter. destruct (find_column _ _); [| done].
  rewrite Forall_forall in Hrows |- *. intros r Hr.
  apply list_elem_of_In, filter_In in Hr as [Hr _].
  by apply Hrows, list_elem_of_In.
Qed.

(** C6.  When the user has picked no sort, the rows on display are the
    filtered rows ordered by the timestamp column, descending: every row's
    timestamp is at least that of each row after it. *)
Theorem default_sort_timestamp_descending (p : props World)
    (filters : list filter_t) :
  Forall has_timestamp (table_data (history_data p)) →
  let tp := render toLowerCase p in
  let shown :=
    view_rows (display defaultFilterMethod defaultSortMethod tp
                       (ReactTable.mk_state filters None)) in
  tp_defaultSorted tp = [mk_sort "timestamp" true]
  ∧ shown ≡ₚ filterData defaultFilterMethod (tp_columns tp) filters (tp_data tp)
  ∧ StronglySorted newer_first shown.
Proof.
  intros Hts tp shown. split; [reflexivity |].
  unfold shown, display. simpl.
  set (rows := filterData _ _ _ _).
  assert (Forall has_timestamp rows) as Hrows by by apply filterData_Forall.
  change (sortData defaultSortMethod defaultSorted rows)
    with (sort_by (compare_rows defaultSortMethod defaultSorted) rows).
  split; [apply sort_by_perm |].
  eapply StronglySorted_weaken;
    [| apply (sort_by_strongly_sorted
                (compare_rows defaultSortMethod defaultSorted) has_timestamp);
       [| | exact Hrows]].
  - intros a b. apply not_after_defaultSorted.
  - intros a b Ha Hb. rewrite !compare_rows_defaultSorted.
    rewrite (compare_swap _ _ Ha Hb).
    destruct (defaultSortMethod _ _); simpl; congruence.
  - intros a b c Ha Hb Hc. rewrite !not_after_defaultSorted.
    intros Hab Hbc.
    pose proof (compare_swap _ _ Ha Hb) as Sab.
    pose proof (compare_swap _ _ Hb Hc) as Sbc.
    pose proof (compare_swap _ _ Ha Hc) as Sac.
    pose proof (compare_trans _ _ _ Hc Hb Ha) as Ht.
    destruct (defaultSortMethod (row_timestamp a) (row_timestamp b)),
             (defaultSortMethod (row_timestamp b) (row_timestamp c)),
             (defaultSortMethod (row_timestamp a) (row_timestamp c));
      simpl in *; try done;
      rewrite Sab, Sbc, Sac in Ht; exfalso; apply Ht; done.
Qed.

End DefaultSort.

Lemma numeric_compare_swap a b :
  is_number a → is_number b →
  numeric_compare b a = CompOpp (numeric_compare a b).
Proof.
  destruct a, b; simpl; try done. intros _ _. apply Z.compare_antisym.
Qed.

Lemma numeric_compare_trans a b c :
  is_number a → is_number b → is_number c →
  numeric_compare a b ≠ Gt → numeric_compare b c ≠ Gt →
  numeric_compare a c ≠ Gt.
Proof.
  destruct a, b, c; simpl; try done. intros _ _ _.
  rewrite !Z.compare_le_iff. lia.
Qed.

(** Witness of C6: three rows stamped 2, 7, 5 are shown in the order
    7, 5, 2. *)
Lemma default_sort_timestamp_descending_witness :
  let rows := [sample_row "a" 2; sample_row "b" 7; sample_row "c" 5] in
  let p := recorder (Some [rows]) [] in
  Forall (λ r, is_number (row_timestamp r)) (table_data (history_data p))
  ∧ view_rows (display keep_all numeric_compare (render ascii_toLowerCase p)
                       (ReactTable.mk_state [] None))
    = [sample_row "b" 7; sample_row "c" 5; sample_row "a" 2]
  ∧ StronglySorted
      (λ a b, numeric_compare (row_timestamp a) (row_timestamp b) ≠ Lt)
      (view_rows (display keep_all numeric_compare (render ascii_toLowerCase p)
                          (ReactTable.mk_state [] None))).
Proof.
  cbv zeta.
  assert (Forall (λ r, is_number (row_timestamp r))
            [sample_row "a" 2; sample_row "b" 7; sample_row "c" 5]) as Hrows
    by (repeat constructor).
  split; [exact Hrows |]. split; [reflexivity |].
  apply (default_sort_timestamp_descending ascii_toLowerCase keep_all
           numeric_compare is_number numeric_compare_swap numeric_compare_trans
           (recorder (Some [[sample_row "a" 2; sample_row "b" 7; sample_row "c" 5]]) [])
           [] Hrows).
Defined.

(* ===================================================================== *)
(** * The revision subsystem: projection and replay                       *)
(* ===================================================================== *)

Import Revision.

Section RevisionFacts.
Context {Item : Type} `{Countable Item}.
Context {LabelId : Type} `{EqDecision LabelId}.
Variable item_data : Item → string.

Local Abbreviation event := (LabelEvent Item LabelId).
Local Abbreviation entry_of :=
  (λ e : event, mk_entry (new_label_id e) (event_id e)).

Lemma events_of_snoc i (s : list event) e :
  events_of i (s ++ [e])
  = events_of i s ++ (if decide (item_id e = i) then [e] else []).
Proof.
  unfold events_of. rewrite filter_app, filter_cons, filter_nil. done.
Qed.

(** Folding events into a projection leaves, for each item, the entry of
    its last event. *)
Lemma foldl_apply_event_lookup (s : list event) (m : gmap Item (entry LabelId)) i :
  foldl apply_event m s !! i
  = match last (events_of i s) with
    | Some e => Some (entry_of e)
    | None => m !! i
    end.
Proof.
  induction s as [|e s IH] using rev_ind; [done |].
  rewrite foldl_app, events_of_snoc. simpl. unfold apply_event at 1.
  destruct (decide (item_id e = i)) as [<-|Hne].
  - by rewrite lookup_insert_eq, last_snoc.
  - by rewrite lookup_insert_ne, app_nil_r.
Qed.

Lemma write_consistent (st : state Item LabelId) now i prev new :
  consistent st → consistent (write item_data st now i prev new).1.
Proof.
  unfold consistent, write, append. intros Hst.
  destruct (decide (prev = chain_tip (store st) i)); simpl; [| done].
  rewrite foldl_app. simpl. unfold apply_event at 1. simpl. by rewrite Hst.
Qed.

Lemma handle_consistent (st : state Item LabelId) now c :
  consistent st → consistent (handle item_data st now c).1.
Proof.
  intros Hst. destruct c as [i expected new | i expected]; simpl.
  - unfold relabel. repeat case_decide; simpl; try done.
    by apply write_consistent.
  - unfold skip. case_decide; simpl; try done.
    by apply write_consistent.
Qed.

Lemma run_consistent (cmds : list (Z * command Item LabelId)) :
  consistent (run item_data cmds).
Proof.
  unfold run. induction cmds as [|tc cmds IH] using rev_ind; [done |].
  rewrite foldl_app. simpl. by apply handle_consistent.
Qed.

(** The timestamp order is a total preorder. *)
Lemma by_timestamp_total (a b : event) :
  by_timestamp a b = Gt → by_timestamp b a ≠ Gt.
Proof.
  unfold by_timestamp. rewrite Z.compare_gt_iff, Z.compare_le_iff. lia.
Qed.

Lemma by_timestamp_trans (a b c : event) :
  not_after by_timestamp a b → not_after by_timestamp b c →
  not_after by_timestamp a c.
Proof.
  unfold not_after, by_timestamp. rewrite !Z.compare_le_iff. lia.
Qed.

(** What [chain_increasing] computes: the events of each item carry
    strictly increasing timestamps. *)
Lemma chain_increasing_events_of (s : list event) i :
  chain_increasing s = true →
  StronglySorted (λ a b, (timestamp a < timestamp b)%Z) (events_of i s).
Proof.
  unfold events_of.
  induction s as [|e s IH]; simpl; [constructor |].
  rewrite andb_true_iff, forallb_forall. intros [Hhead Htail].
  rewrite filter_cons. destruct (decide (item_id e = i)) as [Hi|Hi]; [| auto].
  constructor; [auto |].
  rewrite Forall_forall. intros e' He'.
  apply list_elem_of_filter in He' as [Hitem He'].
  specialize (Hhead e'). rewrite <- list_elem_of_In in Hhead.
  specialize (Hhead He'). rewrite decide_True in Hhead by congruence. lia.
Qed.

Lemma events_of_sorted (s : list event) i :
  chain_increasing s = true →
  Sorted (not_after by_timestamp) (events_of i s).
Proof.
  intros Hs. apply StronglySorted_Sorted.
  eapply StronglySorted_weaken; [| by apply chain_increasing_events_of].
  intros a b. unfold not_after, by_timestamp. rewrite Z.compare_le_iff. lia.
Qed.

(** Reading the ledger in timestamp order does not reorder the events of
    any one item. *)
Lemma events_of_sort_by (s : list event) i :
  chain_increasing s = true →
  events_of i (sort_by by_timestamp s) = events_of i s.
Proof.
  intros Hs. unfold events_of.
  rewrite (filter_sort_by by_timestamp (λ _, True)).
  - apply sort_by_sorted_id. by apply events_of_sorted.
  - intros a b _ _. apply by_timestamp_total.
  - intros a b c _ _ _. apply by_timestamp_trans.
  - by apply Forall_true.
Qed.

Lemma rebuild_ledger_order (s : list event) :
  chain_increasing s = true → rebuild s = foldl apply_event ∅ s.
Proof.
  intros Hs. apply map_eq. intros i. unfold rebuild, read_all.
  by rewrite !foldl_apply_event_lookup, events_of_sort_by.
Qed.

Lemma replay_ledger_order (s : list event) i :
  chain_increasing s = true →
  replay i s = new_label_id <$> last (events_of i s).
Proof.
  intros Hs. unfold replay, read_all.
  rewrite sort_by_sorted_id; [done | by apply events_of_sorted].
Qed.

(** C4.  After any sequence of commands, provided each item's events
    carry strictly increasing timestamps, replaying an item's events in
    timestamp order and keeping the last new label gives the projection's
    entry for that item (no label at all for an item without entry), and
    [rebuild] of the store is the live projection. *)
Theorem projection_replay_equivalence (cmds : list (Z * command Item LabelId)) :
  let st := run item_data cmds in
  chain_increasing (store st) = true →
  (∀ i, replay i (store st) = current_label_id <$> projection st !! i)
  ∧ (∀ i, default Unset (replay i (store st)) = get (projection st) i)
  ∧ rebuild (store st) = projection st.
Proof.
  intros st Hs.
  pose proof (run_consistent cmds) as Hst. fold st in Hst. unfold consistent in Hst.
  assert (∀ i, replay i (store st) = current_label_id <$> projection st !! i)
    as Hreplay.
  { intros i. rewrite replay_ledger_order, Hst, foldl_apply_event_lookup by done.
    destruct (last (events_of i (store st))); [done |].
    by rewrite lookup_empty. }
  split; [exact Hreplay |]. split.
  - intros i. rewrite Hreplay. unfold get.
    by destruct (projection st !! i).
  - by rewrite rebuild_ledger_order.
Qed.

End RevisionFacts.

(* ===================================================================== *)
(** * The revision subsystem: stale commands                              *)
(* ===================================================================== *)

Section StaleState.
Context {Item : Type} `{Countable Item}.
Context {LabelId : Type} `{EqDecision LabelId}.
Variable item_data : Item → string.

(** In a consistent state the store's chain tip of an item is the label
    the projection gives it. *)
Lemma chain_tip_get (st : state Item LabelId) i :
  consistent st → chain_tip (store st) i = get (projection st) i.
Proof.
  unfold consistent, chain_tip, get. intros ->.
  rewrite foldl_apply_event_lookup.
  destruct (last (events_of i (store st))); [done |].
  by rewrite lookup_empty.
Qed.

(** C7.  A [relabel] whose expected previous label is not the item's
    projected label fails with [StaleStateError] and leaves the state as
    it was, so that nothing is retried on the caller's behalf; whenever a
    [relabel] succeeds the expectation matched the projection, and on a
    consistent state a matching expectation with a new label appends
    exactly one event and advances the projection. *)
Theorem relabel_stale_state (st : state Item LabelId) (now : Z) (i : Item)
    (expected new : label_ref LabelId) :
  let out := relabel item_data st now i expected new in
  (expected ≠ get (projection st) i → out = (st, inl StaleStateError))
  ∧ (∀ st' result, out = (st', inr result) → expected = get (projection st) i)
  ∧ (consistent st → expected = get (projection st) i → new ≠ expected →
     out = (Revision.mk_state
              (store st ++ [mk_event (length (store st)) i expected new now
                                     (item_data i)])
              (<[i := mk_entry new (length (store st))]> (projection st)),
            inr (Some (length (store st))))).
Proof.
  intros out. unfold out, relabel. split; [| split].
  - intros Hne. by rewrite decide_False.
  - intros st' result. by case_decide.
  - intros Hst Hmatch Hnew.
    rewrite decide_True, decide_False by done.
    unfold write, append. by rewrite decide_True by by rewrite chain_tip_get.
Qed.

End StaleState.

(** Witness of C4: the specification's end-to-end history of item I1
    (labelled L1, skipped, relabelled L2), with a second item and one stale
    command in between. *)
Lemma projection_replay_equivalence_witness :
  let cmds : list (Z * command string nat) :=
    [ (1%Z, Relabel "I1" Unset (Label 1));
      (2%Z, Skip "I1" (Label 1));
      (3%Z, Relabel "I2" Unset (Label 2));
      (4%Z, Relabel "I2" Unset (Label 1));
      (5%Z, Relabel "I1" Skipped (Label 2)) ] in
  let st := run (λ _, "text") cmds in
  chain_increasing (store st) = true
  ∧ length (store st) = 4
  ∧ rebuild (store st) = projection st.
Proof.
  cbv zeta. split; [reflexivity |]. split; [reflexivity |].
  apply (projection_replay_equivalence (λ _ : string, "text")
           [ (1%Z, Relabel "I1" Unset (Label 1));
             (2%Z, Skip "I1" (Label 1));
             (3%Z, Relabel "I2" Unset (Label 2));
             (4%Z, Relabel "I2" Unset (Label 1));
             (5%Z, Relabel "I1" Skipped (Label 2)) ]).
  reflexivity.
Defined.

(** Witness of C7: item I1 is labelled L1; a relabel that expects L2 is
    refused. *)
Lemma relabel_stale_state_witness :
  let st : state string nat := run (λ _, "text") [(1%Z, Relabel "I1" Unset (Label 1))] in
  Label 2 ≠ get (projection st) "I1"
  ∧ relabel (λ _, "text") st 2 "I1" (Label 2) (Label 3) = (st, inl StaleStateError).
Proof.
  cbv zeta.
  assert (Label 2 ≠ get (projection
            (run (λ _ : string, "text") [(1%Z, Relabel "I1" Unset (Label 1))])) "I1")
    as Hstale by (vm_compute; discriminate).
  split; [exact Hstale |].
  apply (relabel_stale_state (λ _ : string, "text")
           (run (λ _ : string, "text") [(1%Z, Relabel "I1" Unset (Label 1))])
           2 "I1" (Label 2) (Label 3)).
  exact Hstale.
Defined.

(* ===================================================================== *)
(** * The revision subsystem: clocks and redundant commands               *)
(* ===================================================================== *)

Section Clock.
Context {Item : Type} `{Countable Item}.
Context {LabelId : Type} `{EqDecision LabelId}.
Variable item_data : Item → string.

Local Abbreviation event := (LabelEvent Item LabelId).

Lemma chain_increasing_snoc (s : list event) e :
  chain_increasing s = true →
  (∀ e', e' ∈ s → (timestamp e' < timestamp e)%Z) →
  chain_increasing (s ++ [e]) = true.
Proof.
  induction s as [|e0 s IH]; simpl; [done |].
  rewrite !andb_true_iff, !forallb_forall. intros [Hhead Htail] Hnew.
  split; [| apply IH; [done | intros e' He'; apply Hnew; by right]].
  intros e' He'. apply in_app_or in He' as [He'|[<-|[]]]; [auto |].
  case_decide; [| done]. apply Z.ltb_lt, Hnew. by left.
Qed.

Lemma clock_increasing_snoc (cmds : list (Z * command Item LabelId)) tc :
  clock_increasing (cmds ++ [tc]) = true →
  clock_increasing cmds = true ∧ ∀ tc', tc' ∈ cmds → (tc'.1 < tc.1)%Z.
Proof.
  induction cmds as [|tc0 cmds IH]; simpl.
  - intros _. split; [done | intros tc' Htc'; by apply elem_of_nil in Htc'].
  - rewrite !andb_true_iff, !forallb_forall. intros [Hhead Htail].
    destruct (IH Htail) as [Hcmds Hlast]. repeat split.
    + intros tc' Htc'. apply Hhead, in_or_app. by left.
    + done.
    + intros tc' Htc'. apply elem_of_cons in Htc' as [->|Htc']; [| auto].
      apply Z.ltb_lt, Hhead, in_or_app. right. by left.
Qed.

(** A command leaves the ledger as it was or appends one event stamped
    with the command's clock reading. *)
Lemma handle_store (st : state Item LabelId) now c :
  store (handle item_data st now c).1 = store st
  ∨ ∃ e, store (handle item_data st now c).1 = store st ++ [e]
         ∧ timestamp e = now.
Proof.
  assert (∀ i prev new,
            store (write item_data st now i prev new).1 = store st
            ∨ ∃ e, store (write item_data st now i prev new).1 = store st ++ [e]
                   ∧ timestamp e = now) as Hwrite.
  { intros i prev new. unfold write, append.
    case_decide; simpl; [right; eauto | by left]. }
  destruct c as [i expected new | i expected]; simpl.
  - unfold relabel. repeat case_decide; simpl; auto.
  - unfold skip. case_decide; simpl; auto.
Qed.

(** Every event of the ledger carries the clock reading of one of the
    commands served. *)
Lemma run_timestamps (cmds : list (Z * command Item LabelId)) e :
  e ∈ store (run item_data cmds) → ∃ tc, tc ∈ cmds ∧ timestamp e = tc.1.
Proof.
  unfold run. induction cmds as [|tc cmds IH] using rev_ind; simpl.
  - intros He. by apply elem_of_nil in He.
  - rewrite foldl_app. simpl. intros He.
    destruct (handle_store (foldl (λ st tc, (handle item_data st tc.1 tc.2).1)
                                  init cmds) tc.1 tc.2)
      as [Hsame | (e' & Happ & Hts)].
    + rewrite Hsame in He. destruct (IH He) as (tc' & Htc' & Heq).
      exists tc'. split; [| done]. apply elem_of_app. by left.
    + rewrite Happ in He. apply elem_of_app in He as [He | He].
      * destruct (IH He) as (tc' & Htc' & Heq).
        exists tc'. split; [| done]. apply elem_of_app. by left.
      * apply list_elem_of_singleton in He as ->.
        exists tc. split; [| done]. apply elem_of_app. right. by left.
Qed.

(** Under a strictly increasing clock every item's chain of events has
    strictly increasing timestamps. *)
Lemma clock_increasing_chain (cmds : list (Z * command Item LabelId)) :
  clock_increasing cmds = true →
  chain_increasing (store (run item_data cmds)) = true.
Proof.
  induction cmds as [|tc cmds IH] using rev_ind; [done |].
  intros Hclock. apply clock_increasing_snoc in Hclock as [Hcmds Hlast].
  specialize (IH Hcmds).
  pose proof (run_timestamps cmds) as Hstamps.
  unfold run in *. rewrite foldl_app. simpl.
  destruct (handle_store (foldl (λ st tc, (handle item_data st tc.1 tc.2).1)
                                init cmds) tc.1 tc.2)
    as [Hsame | (e' & Happ & Hts)].
  - by rewrite Hsame.
  - rewrite Happ. apply chain_increasing_snoc; [done |].
    intros e He. destruct (Hstamps e He) as (tc' & Htc' & ->).
    rewrite Hts. by apply Hlast.
Qed.

(** Relabelling an item to the label the command expects changes nothing,
    whether or not the expectation is stale: the ledger gains no event. *)
Lemma relabel_same_label_noop (st : state Item LabelId) now i l :
  (relabel item_data st now i l l).1 = st.
Proof. unfold relabel. by repeat case_decide. Qed.

End Clock.

(* ===================================================================== *)
(** * More on the page-size menu                                          *)
(* ===================================================================== *)

Section MenuFacts.

Lemma growth_size_monotone j k : j ≤ k → growth_size j ≤ growth_size k.
Proof.
  intros Hjk. destruct (decide (j = k)) as [->|Hne]; [done |].
  pose proof (growth_size_increasing j k). lia.
Qed.

Lemma growth_size_lt_inv j k : growth_size j < growth_size k → j < k.
Proof.
  intros Hlt. destruct (decide (j < k)); [done |].
  pose proof (growth_size_monotone k j). lia.
Qed.

(** Twice the [k]-th size is 5 (k+1) (k+2): the sizes are 5 times the
    triangular numbers. *)
Lemma growth_size_double k : 2 * growth_size k = 5 * (k + 1) * (k + 2).
Proof. induction k as [|k IH]; simpl growth_size; [done | nia]. Qed.

Lemma growth_size_closed k : growth_size k = 5 * (k + 1) * (k + 2) / 2.
Proof.
  rewrite <- growth_size_double, Nat.mul_comm. symmetry. by apply Nat.div_mul.
Qed.

(** The sizes pushed by the loop, followed by the row count, go up
    strictly. *)
Lemma growth_run_sorted total m : ∀ k,
  (∀ j, k ≤ j < k + m → growth_size j < total) →
  StronglySorted lt (map growth_size (seq k m) ++ [total]).
Proof.
  induction m as [|m IH]; intros k Hbelow; simpl.
  - repeat constructor.
  - constructor.
    + apply IH. intros j Hj. apply Hbelow. lia.
    + rewrite Forall_app, Forall_singleton, Forall_fmap, Forall_forall.
      split; [| apply Hbelow; lia].
      intros j Hj. apply elem_of_seq in Hj. simpl.
      apply growth_size_increasing. lia.
Qed.

(** X1.  The initial page size of a rendered table is always one of the
    page-size options offered for it. *)
Theorem page_size_among_options {World : Type} (toLowerCase : string → string)
    (p : props World) :
  tp_pageSize (render toLowerCase p) ∈ tp_pageSizeOptions (render toLowerCase p).
Proof.
  rewrite render_pageSizeOptions, render_pageSize.
  set (total := length (tp_data (render toLowerCase p))).
  unfold pageSize. destruct (Nat.ltb_spec total 50) as [Hlt|Hge].
  - unfold page_sizes. apply elem_of_app. right. by left.
  - destruct (page_sizes_shape total) as (m & -> & Hbelow & Hstop).
    destruct (decide (total = 50)) as [->|Hne].
    + right. apply elem_of_app. right. by left.
    + right. apply elem_of_app. left.
      apply (list_elem_of_fmap_2 growth_size _ 3), elem_of_seq.
      split; [lia |]. simpl. apply growth_size_lt_inv.
      change (growth_size 3) with 50. lia.
Qed.

(** X2.  The page-size options go up strictly, without repeats, exactly
    when the table has at least 2 rows. *)
Theorem page_sizes_strictly_increasing total :
  StronglySorted lt (page_sizes total) ↔ 2 ≤ total.
Proof.
  split.
  - intros Hsorted. destruct (decide (2 ≤ total)) as [|Hsmall]; [done |].
    rewrite page_sizes_small in Hsorted by lia.
    apply StronglySorted_inv in Hsorted as [_ Hhead].
    apply Forall_cons in Hhead as [Hlt _]. lia.
  - intros Htotal.
    destruct (page_sizes_shape total) as (m & -> & Hbelow & _).
    constructor.
    + apply growth_run_sorted. intros j Hj. apply Hbelow. lia.
    + rewrite Forall_app, Forall_singleton, Forall_fmap, Forall_forall.
      split; [| lia]. intros j _. simpl.
      pose proof (growth_size_lower j). lia.
Qed.

(** X3.  For a table with at least one row, every page-size option lies
    between 1 and the row count. *)
Theorem page_sizes_within_total total :
  1 ≤ total → Forall (λ size, 1 ≤ size ≤ total) (page_sizes total).
Proof.
  intros Htotal.
  destruct (page_sizes_shape total) as (m & -> & Hbelow & _).
  constructor; [lia |].
  rewrite Forall_app, Forall_singleton, Forall_fmap, Forall_forall.
  split; [| lia]. intros j Hj. apply elem_of_seq in Hj. simpl.
  pose proof (growth_size_lower j). specialize (Hbelow j). lia.
Qed.

(** X4.  Between the leading 1 and the closing row count the options are
    the numbers 5 (k+1) (k+2) / 2 for k below some m; m is the one number
    with 5 m (m+1) < 2 total <= 5 (m+1) (m+2) (m is 0 when even 5 is not
    below the total), so the menu has m + 2 entries. *)
Theorem page_sizes_closed_form total :
  ∃ m, page_sizes total
         = 1 :: map (λ k, 5 * (k + 1) * (k + 2) / 2) (seq 0 m) ++ [total]
       ∧ length (page_sizes total) = m + 2
       ∧ (m = 0 ∨ 5 * m * (m + 1) < 2 * total)
       ∧ 2 * total ≤ 5 * (m + 1) * (m + 2).
Proof.
  destruct (page_sizes_shape total) as (m & Heq & Hbelow & Hstop).
  exists m. rewrite Heq. repeat split.
  - f_equal. f_equal. apply map_ext. intros k. apply growth_size_closed.
  - simpl. rewrite length_app, length_map, length_seq. simpl. lia.
  - destruct m as [|m']; [by left | right].
    specialize (Hbelow m'). pose proof (growth_size_double m'). nia.
  - pose proof (growth_size_double m). nia.
Qed.

(** X5.  A table with more rows is offered at least the options of a
    smaller one: apart from the closing row count, the options of the
    smaller table open the list of the larger. *)
Theorem page_sizes_grow_with_total total total' :
  total ≤ total' →
  removelast (page_sizes total) `prefix_of` removelast (page_sizes total').
Proof.
  intros Hle.
  destruct (page_sizes_shape total) as (m & -> & Hbelow & Hstop).
  destruct (page_sizes_shape total') as (m' & -> & Hbelow' & Hstop').
  change (1 :: map growth_size (seq 0 m) ++ [total])
    with ((1 :: map growth_size (seq 0 m)) ++ [total]).
  change (1 :: map growth_size (seq 0 m') ++ [total'])
    with ((1 :: map growth_size (seq 0 m')) ++ [total']).
  rewrite !removelast_last.
  assert (m ≤ m') as Hm.
  { destruct m as [|k]; [lia |].
    assert (k < m'); [| lia]. apply growth_size_lt_inv.
    specialize (Hbelow k). lia. }
  exists (map growth_size (seq m (m' - m))).
  replace m' with (m + (m' - m)) at 1 by lia.
  by rewrite seq_app, map_app.
Qed.

End MenuFacts.

(** Witness of X3: the options 1, 5, 12 of a 12-row table lie between 1
    and 12. *)
Lemma page_sizes_within_total_witness :
  1 ≤ 12 ∧ Forall (λ size, 1 ≤ size ≤ 12) (page_sizes 12).
Proof.
  split; [lia |]. apply (page_sizes_within_total 12). lia.
Defined.

(** Witness of X5: the options 1, 5 of a 12-row table open the options
    1, 5, 15, 30 of a 40-row table. *)
Lemma page_sizes_grow_with_total_witness :
  12 ≤ 40
  ∧ removelast (page_sizes 12) `prefix_of` removelast (page_sizes 40).
Proof.
  split; [lia |]. apply (page_sizes_grow_with_total 12 40). lia.
Defined.

(* ===================================================================== *)
(** * The table data of a render                                          *)
(* ===================================================================== *)

(** X6.  When the [history_data] prop is missing or an empty array the
    table is rendered without rows, with the page-size options 1, 0 and an
    initial page size of 0. *)
Theorem render_without_history {World : Type} (toLowerCase : string → string)
    (p : props World) :
  history_data p = None ∨ history_data p = Some [] →
  tp_data (render toLowerCase p) = []
  ∧ tp_pageSizeOptions (render toLowerCase p) = [1; 0]
  ∧ tp_pageSize (render toLowerCase p) = 0.
Proof.
  intros Hmissing. unfold render.
  assert (table_data (history_data p) = []) as ->
    by (destruct Hmissing as [-> | ->]; reflexivity).
  repeat split.
Qed.

(** Witness of X6: a render before the history has arrived. *)
Lemma render_without_history_witness :
  let p := recorder None [mk_label (JNum 1) "spam"] in
  (history_data p = None ∨ history_data p = Some [])
  ∧ tp_pageSizeOptions (render ascii_toLowerCase p) = [1; 0].
Proof.
  cbv zeta. split; [by left |].
  apply (render_without_history ascii_toLowerCase
           (recorder None [mk_label (JNum 1) "spam"])).
  by left.
Defined.

(* ===================================================================== *)
(** * The button toolbar of a row                                         *)
(* ===================================================================== *)

Lemma label_onClick_decide {World : Type} (p : props World) (r : row)
    (label : label_t) (w : World) :
  label_onClick p r label w
  = if decide (pk label = row_old_label_id r) then w
    else changeLabel p (row_id r) (row_old_label_id r) (pk label) w.
Proof.
  unfold label_onClick.
  destruct (strict_eq (row_old_label_id r) (pk label)) eqn:Heq; simpl.
  - apply strict_eq_true in Heq. by rewrite decide_True.
  - rewrite decide_False; [done |]. intros Hsame.
    rewrite Hsame, strict_eq_refl in Heq. done.
Qed.

Section ToolbarLog.
Variable history : option (list (list row)).
Variable labels : list label_t.

(** X8.  A click on a label button adds the relabel command (row id, old
    label id, label key) to the log of dispatched commands when the label's
    key differs from the row's old label id, in value or in type, and
    leaves the log alone only when the two are the same value. *)
Theorem label_click_logs_iff_different (r : row) (label : label_t)
    (log : list action) :
  label_onClick (recorder history labels) r label log
  = (if decide (pk label = row_old_label_id r) then log
     else log ++ [ChangeLabel (row_id r) (row_old_label_id r) (pk label)])
  ∧ (label_onClick (recorder history labels) r label log = log
     ↔ pk label = row_old_label_id r).
Proof.
  assert (label_onClick (recorder history labels) r label log
          = (if decide (pk label = row_old_label_id r) then log
             else log ++ [ChangeLabel (row_id r) (row_old_label_id r) (pk label)]))
    as Hclick.
  { apply label_onClick_decide. }
  split; [done |]. rewrite Hclick. case_decide; split; try done.
  intros Happ. apply (f_equal length) in Happ.
  rewrite length_app in Happ. simpl in Happ. lia.
Qed.

End ToolbarLog.

(* ===================================================================== *)
(** * More on the filter of the Data column                               *)
(* ===================================================================== *)

Section SubstringFacts.

Lemma append_empty_r (s : string) : s +:+ "" = s.
Proof. induction s as [|c s IH]; [done |]. by rewrite append_cons, IH. Qed.

Lemma append_assoc (a b c : string) : (a +:+ b) +:+ c = a +:+ (b +:+ c).
Proof. induction a as [|x a IH]; [done |]. by rewrite !append_cons, IH. Qed.

Lemma append_length (a b : string) :
  String.length (a +:+ b) = String.length a + String.length b.
Proof. induction a as [|x a IH]; [done |]. rewrite append_cons. simpl. lia. Qed.

Lemma substring_of_refl s : substring_of s s.
Proof. exists "", "". by rewrite append_empty_r. Qed.

Lemma substring_of_empty s : substring_of "" s.
Proof. by exists "", s. Qed.

Lemma substring_of_trans a b c :
  substring_of a b → substring_of b c → substring_of a c.
Proof.
  intros (p1 & q1 & ->) (p2 & q2 & ->).
  exists (p2 +:+ p1), (q1 +:+ q2). by rewrite !append_assoc.
Qed.

Lemma substring_of_length t s :
  substring_of t s → String.length t ≤ String.length s.
Proof. intros (pre & post & ->). rewrite !append_length. lia. Qed.

Lemma ascii_lower_idempotent c : ascii_lower (ascii_lower c) = ascii_lower c.
Proof. by destruct c as [[] [] [] [] [] [] [] []]. Qed.

Lemma ascii_toLowerCase_idempotent s :
  ascii_toLowerCase (ascii_toLowerCase s) = ascii_toLowerCase s.
Proof.
  induction s as [|c s IH]; [done |]. simpl.
  by rewrite ascii_lower_idempotent, IH.
Qed.

End SubstringFacts.

Section DataFilterFacts.
Variable toLowerCase : string → string.

Lemma data_filterMethod_passes f r :
  data_filterMethod toLowerCase f r = true
  ↔ substring_of (toLowerCase (filter_value f))
                 (toLowerCase (String_ (row_data r))).
Proof. exact (data_filterMethod_true toLowerCase keep_all f r). Qed.

Lemma data_filterMethod_false f r :
  data_filterMethod toLowerCase f r = false
  ↔ ¬ substring_of (toLowerCase (filter_value f))
                   (toLowerCase (String_ (row_data r))).
Proof.
  pose proof (data_filterMethod_passes f r) as Htrue.
  destruct (data_filterMethod toLowerCase f r).
  - split; [done |]. intros Hnot. by destruct Hnot, Htrue as [Hsub _]; auto.
  - split; [| done]. intros _ Hsub. apply Htrue in Hsub. done.
Qed.

(** X10.  Provided lowercasing the empty string gives the empty string, a
    filter with empty text passes every row. *)
Theorem empty_filter_passes_all (id : string) (r : row) :
  toLowerCase "" = "" →
  data_filterMethod toLowerCase (mk_filter id "") r = true.
Proof.
  intros Hempty. apply data_filterMethod_passes. simpl.
  rewrite Hempty. apply substring_of_empty.
Qed.

(** X11.  Every row passes the filter whose text is the row's own data,
    written as a string. *)
Theorem own_data_passes (id : string) (r : row) :
  data_filterMethod toLowerCase (mk_filter id (String_ (row_data r))) r = true.
Proof. apply data_filterMethod_passes. simpl. apply substring_of_refl. Qed.

(** X12.  A filter text that, lowercased, occurs inside another one is the
    weaker filter: each row the longer text passes, the shorter one passes
    too. *)
Theorem shorter_filter_passes_more (f1 f2 : filter_t) (r : row) :
  substring_of (toLowerCase (filter_value f1)) (toLowerCase (filter_value f2)) →
  data_filterMethod toLowerCase f2 r = true →
  data_filterMethod toLowerCase f1 r = true.
Proof.
  rewrite !data_filterMethod_passes. apply substring_of_trans.
Qed.

(** X13.  A filter text that, lowercased, is longer than the row's
    lowercased data rejects the row. *)
Theorem longer_filter_rejects (f : filter_t) (r : row) :
  String.length (toLowerCase (String_ (row_data r)))
    < String.length (toLowerCase (filter_value f)) →
  data_filterMethod toLowerCase f r = false.
Proof.
  intros Hlong. apply data_filterMethod_false. intros Hsub.
  apply substring_of_length in Hsub. lia.
Qed.

(** X14.  Provided lowercasing twice is lowercasing once, the filter does
    not see the case of its text nor that of the data: lowercasing either
    beforehand gives the same verdict. *)
Theorem filter_ignores_case (id value text : string)
    (rid old_label old_label_id timestamp : jsval) :
  (∀ s, toLowerCase (toLowerCase s) = toLowerCase s) →
  data_filterMethod toLowerCase (mk_filter id (toLowerCase value))
    (mk_row rid (JStr (toLowerCase text)) old_label old_label_id timestamp)
  = data_filterMethod toLowerCase (mk_filter id value)
      (mk_row rid (JStr text) old_label old_label_id timestamp).
Proof.
  intros Hidem. unfold data_filterMethod. simpl.
  change (row_get ?r "data") with (row_data r). simpl.
  by rewrite !Hidem.
Qed.

End DataFilterFacts.

(** Witness of X10. *)
Lemma empty_filter_passes_all_witness :
  ascii_toLowerCase "" = ""
  ∧ data_filterMethod ascii_toLowerCase (mk_filter "data" "")
      (sample_row "Free Text" 3) = true.
Proof.
  split; [reflexivity |].
  apply (empty_filter_passes_all ascii_toLowerCase "data" (sample_row "Free Text" 3)).
  reflexivity.
Defined.

(** Witness of X12: "AN" occurs in "ban", and "Banana" passes both. *)
Lemma shorter_filter_passes_more_witness :
  let f1 := mk_filter "data" "AN" in
  let f2 := mk_filter "data" "ban" in
  let r := sample_row "Banana" 3 in
  substring_of (ascii_toLowerCase (filter_value f1))
               (ascii_toLowerCase (filter_value f2))
  ∧ data_filterMethod ascii_toLowerCase f2 r = true
  ∧ data_filterMethod ascii_toLowerCase f1 r = true.
Proof.
  cbv zeta.
  assert (substring_of (ascii_toLowerCase "AN") (ascii_toLowerCase "ban")) as Hsub
    by (by exists "b", "").
  split; [exact Hsub |]. split; [reflexivity |].
  apply (shorter_filter_passes_more ascii_toLowerCase
           (mk_filter "data" "AN") (mk_filter "data" "ban")
           (sample_row "Banana" 3) Hsub).
  reflexivity.
Defined.

(** Witness of X13: "bananas" is longer than "Banana". *)
Lemma longer_filter_rejects_witness :
  let f := mk_filter "data" "bananas" in
  let r := sample_row "Banana" 3 in
  String.length (ascii_toLowerCase (String_ (row_data r)))
    < String.length (ascii_toLowerCase (filter_value f))
  ∧ data_filterMethod ascii_toLowerCase f r = false.
Proof.
  cbv zeta. split; [vm_compute; lia |].
  apply (longer_filter_rejects ascii_toLowerCase
           (mk_filter "data" "bananas") (sample_row "Banana" 3)).
  vm_compute. lia.
Defined.

(** Witness of X14: "BAN" against "Banana", before and after lowercasing. *)
Lemma filter_ignores_case_witness :
  (∀ s, ascii_toLowerCase (ascii_toLowerCase s) = ascii_toLowerCase s)
  ∧ data_filterMethod ascii_toLowerCase (mk_filter "data" (ascii_toLowerCase "BAN"))
      (mk_row (JNum 1) (JStr (ascii_toLowerCase "Banana")) JNull (JNum 2) (JNum 3))
    = data_filterMethod ascii_toLowerCase (mk_filter "data" "BAN")
        (mk_row (JNum 1) (JStr "Banana") JNull (JNum 2) (JNum 3)).
Proof.
  split; [exact ascii_toLowerCase_idempotent |].
  apply (filter_ignores_case ascii_toLowerCase "data" "BAN" "Banana"
           (JNum 1) JNull (JNum 2) (JNum 3) ascii_toLowerCase_idempotent).
Defined.

(* ===================================================================== *)
(** * The sub-component of a row: when it is built and what it holds       *)
(* ===================================================================== *)

Section SubComponentFacts.
Context {World : Type}.
Variable p : props World.

Local Abbreviation nullish := (λ v : jsval, v = JUndefined ∨ v = JNull).

Lemma toString_None v : toString v = None ↔ nullish v.
Proof. destruct v; simpl; split; (done || (intros [?|?]; done) || auto). Qed.

Lemma button_key_None (r : row) (label : label_t) :
  button_key r label = None ↔ nullish (pk label) ∨ nullish (row_id r).
Proof.
  unfold button_key. rewrite <- !toString_None.
  destruct (toString (pk label)), (toString (row_id r)); split;
    (done || (intros [?|?]; done) || auto).
Qed.

Lemma label_button_None (r : row) (label : label_t) :
  label_button p r label = None ↔ nullish (pk label) ∨ nullish (row_id r).
Proof.
  rewrite <- button_key_None. unfold label_button.
  destruct (button_key r label); split; done.
Qed.

Lemma label_button_Some (r : row) (label : label_t) (b : button World) :
  label_button p r label = Some b →
  ∃ k, button_key r label = Some k
       ∧ b = mk_button (Some k) (name label) "primary" (label_onClick p r label).
Proof.
  unfold label_button. destruct (button_key r label) as [k|]; [| done].
  intros Hb. exists k. by injection Hb as <-.
Qed.

Lemma label_buttons_captions (r : row) ls (buttons : list (button World)) :
  Forall2 (λ label b, label_button p r label = Some b) ls buttons →
  caption <$> buttons = name <$> ls.
Proof.
  induction 1 as [|label b ls buttons Hb _ IH]; [done |].
  apply label_button_Some in Hb as (k & _ & ->). simpl. by f_equal.
Qed.

(** X7.  When the sub-component of a row can be built, its paragraph holds
    the row's data and its toolbar has one button per label, in the order
    of the labels and captioned with their names, followed by the Skip
    button: the button at a label's position carries the key made of the
    label's key and the row's id and runs the guarded relabel for that
    label, and the button after the last label runs the skip. *)
Theorem toolbar_layout (r : row) (sub : sub_row World) :
  SubComponent p r = Some sub →
  ∃ ls,
    labels p = Some ls
    ∧ sub_text sub = row_data r
    ∧ length (sub_toolbar sub) = length ls + 1
    ∧ caption <$> sub_toolbar sub = (name <$> ls) ++ ["Skip"]
    ∧ (∀ i label,
         ls !! i = Some label →
         ∃ k, button_key r label = Some k
              ∧ sub_toolbar sub !! i
                = Some (mk_button (Some k) (name label) "primary"
                                  (label_onClick p r label)))
    ∧ sub_toolbar sub !! length ls
      = Some (mk_button None "Skip" "info" (skip_onClick p r)).
Proof.
  intros Hsub.
  apply SubComponent_Some in Hsub as (ls & buttons & Hls & Hbuttons & ->).
  apply mapM_Some in Hbuttons. pose proof (Forall2_length _ _ _ Hbuttons) as Hlen.
  exists ls. simpl. repeat split; [done | | | |].
  - rewrite length_app. simpl. lia.
  - rewrite fmap_app. simpl. f_equal. by eapply label_buttons_captions.
  - intros i label Hi.
    destruct (Forall2_lookup_l _ _ _ _ _ Hbuttons Hi) as (b & Hb & Hbutton).
    apply label_button_Some in Hbutton as (k & Hk & ->).
    exists k. split; [done |]. by rewrite lookup_app_l by by eapply lookup_lt_Some.
  - rewrite lookup_app_r by lia. by rewrite Hlen, Nat.sub_diag.
Qed.

(** X15.  Building the sub-component of a row throws exactly when the
    [labels] prop is missing, or some label's key is [undefined] or [null],
    or there is at least one label and the row's id is [undefined] or
    [null]; with an empty list of labels the row's id is not looked at. *)
Theorem SubComponent_throws_iff (r : row) :
  SubComponent p r = None
  ↔ labels p = None
    ∨ ∃ ls, labels p = Some ls
            ∧ (Exists (λ label, nullish (pk label)) ls
               ∨ (ls ≠ [] ∧ nullish (row_id r))).
Proof.
  unfold SubComponent. destruct (labels p) as [ls|]; [| by split; auto].
  assert (mapM (label_button p r) ls = None
          ↔ Exists (λ label, nullish (pk label)) ls
            ∨ (ls ≠ [] ∧ nullish (row_id r))) as Hthrow.
  { rewrite mapM_None, !Exists_exists. split.
    - intros (label & Hin & Hnone). apply label_button_None in Hnone as [Hpk|Hid].
      + left. eauto.
      + right. split; [| done]. intros ->. by apply elem_of_nil in Hin.
    - intros [(label & Hin & Hpk) | [Hne Hid]].
      + exists label. split; [done |]. apply label_button_None. by left.
      + destruct ls as [|label ls]; [done |]. exists label.
        split; [by left |]. apply label_button_None. by right. }
  destruct (mapM (label_button p r) ls) as [buttons|]; split.
  - done.
  - intros [Hnone | (ls' & Hls & Hcase)]; [done |].
    injection Hls as <-. apply Hthrow in Hcase. done.
  - intros _. right. exists ls. split; [done |]. by apply Hthrow.
  - done.
Qed.

End SubComponentFacts.

(** The clicks on the label buttons of a toolbar, one after the other, on
    a world that logs the commands. *)
Lemma label_clicks_log (p : props (list action)) (r : row)
    (ls : list label_t) (buttons : list (button (list action))) :
  (∀ id old new log, changeLabel p id old new log = log ++ [ChangeLabel id old new]) →
  Forall2 (λ label b, label_button p r label = Some b) ls buttons →
  ∀ log,
    foldl (λ log b, onClick b log) log buttons
    = log ++ map (λ label, ChangeLabel (row_id r) (row_old_label_id r) (pk label))
                 (filter (λ label, pk label ≠ row_old_label_id r) ls).
Proof.
  intros Hlog. induction 1 as [|label b ls buttons Hb _ IH]; intros log.
  - by rewrite app_nil_r.
  - apply label_button_Some in Hb as (k & _ & ->). simpl.
    rewrite IH, label_onClick_decide, Hlog, filter_cons.
    destruct (decide (pk label = row_old_label_id r)) as [Heq|Hne].
    + by rewrite decide_False by (intros Hc; by apply Hc).
    + rewrite decide_True by done. simpl. by rewrite <- app_assoc.
Qed.

(** X9.  When a row's toolbar can be built, clicking every button of it
    once, from first to last, dispatches one relabel for each label whose
    key differs from the row's old label id, in the order of the labels,
    and then one skip; every command carries the row's id and old label
    id. *)
Theorem toolbar_clicks_log (history : option (list (list row)))
    (labels : list label_t) (r : row) (sub : sub_row (list action)) :
  SubComponent (recorder history labels) r = Some sub →
  foldl (λ log b, onClick b log) [] (sub_toolbar sub)
  = map (λ label, ChangeLabel (row_id r) (row_old_label_id r) (pk label))
        (filter (λ label, pk label ≠ row_old_label_id r) labels)
    ++ [ChangeToSkip (row_id r) (row_old_label_id r)].
Proof.
  intros Hsub.
  apply SubComponent_Some in Hsub as (ls & buttons & Hls & Hbuttons & ->).
  injection Hls as <-. apply mapM_Some in Hbuttons.
  simpl. rewrite foldl_app. simpl.
  rewrite (label_clicks_log (recorder history labels) r labels buttons
             (λ _ _ _ _, eq_refl) Hbuttons).
  done.
Qed.

(** Witness of X7: a row labelled 7 under the labels 7 and 8. *)
Lemma toolbar_layout_witness :
  let r := mk_row (JNum 42) (JStr "free text") (JStr "spam") (JNum 7) (JNum 3) in
  let p := recorder None [mk_label (JNum 7) "spam"; mk_label (JNum 8) "ham"] in
  ∃ sub, SubComponent p r = Some sub
         ∧ caption <$> sub_toolbar sub = ["spam"; "ham"; "Skip"]
         ∧ length (sub_toolbar sub) = 3.
Proof.
  cbv zeta. eexists. split; [reflexivity |].
  split; [reflexivity |].
  destruct (toolbar_layout
              (recorder None [mk_label (JNum 7) "spam"; mk_label (JNum 8) "ham"])
              (mk_row (JNum 42) (JStr "free text") (JStr "spam") (JNum 7) (JNum 3))
              _ eq_refl) as (ls & Hls & _ & Hlen & _).
  injection Hls as <-. exact Hlen.
Defined.

(** Witness of X9: on a row labelled 7 under the labels 7 and 8, the
    clicks log the relabel to 8 and the skip. *)
Lemma toolbar_clicks_log_witness :
  let r := mk_row (JNum 42) (JStr "free text") (JStr "spam") (JNum 7) (JNum 3) in
  let ls := [mk_label (JNum 7) "spam"; mk_label (JNum 8) "ham"] in
  ∃ sub, SubComponent (recorder None ls) r = Some sub
         ∧ foldl (λ log b, onClick b log) [] (sub_toolbar sub)
           = map (λ label, ChangeLabel (row_id r) (row_old_label_id r) (pk label))
                 (filter (λ label, pk label ≠ row_old_label_id r) ls)
             ++ [ChangeToSkip (row_id r) (row_old_label_id r)].
Proof.
  cbv zeta. eexists. split; [reflexivity |].
  apply (toolbar_clicks_log None
           [mk_label (JNum 7) "spam"; mk_label (JNum 8) "ham"]
           (mk_row (JNum 42) (JStr "free text") (JStr "spam") (JNum 7) (JNum 3))).
  reflexivity.
Defined.
